(** * AD9850 frequency generator with rotary encoder: a shallow embedding

    The sketch [AD9850_Freq_Gen_Encoder.ino] reads a quadrature encoder with a
    push button from three interrupt service routines, keeps a frequency and
    a step size in global variables, and bit-bangs a 40-bit frame into an
    AD9850 synthesiser from [loop].

    Modelling decisions:
    - [long] and [int32_t] are 32 bits wide on the three boards the sketch
      names; they are integers of [Z] with the wrap-around written out;
    - [double] is IEEE 754 binary64, as on the Cortex-M4 boards the sketch
      lists, with the operations of [SpecFloat] (round to nearest even);
    - the globals (the four [volatile] variables and the two [static]
      locals of [loop]) are the fields of one record that every routine
      takes and returns;
    - what the program does to the outside is a list of events in program
      order; every [digitalWrite] is one event;
    - the LCD blocks under [#if defined (__MSP430FR6989)] are left out, the
      [Serial] output of [printFreq] and [printInc] is one event each;
    - an interrupt routine runs to completion; [loop] is one pass during
      which no interrupt is served, and [loop_preempted] is one pass with
      interrupts served between its accesses to the volatile globals. *)

From Stdlib Require Import ZArith QArith Qabs List Bool Ascii Lia.
From Stdlib Require Import Floats.SpecFloat.
Import ListNotations.

Local Open Scope Z_scope.

(** ** Machine integers *)

Module Machine.

(** Reduction of an integer to the signed 32-bit range, as the
    two's-complement targets do on [long] and [int32_t]. *)
Definition wrap_long (x : Z) : Z := (x + 2 ^ 31) mod 2 ^ 32 - 2 ^ 31.

Definition in_long (x : Z) : Prop := - 2 ^ 31 <= x < 2 ^ 31.

(** Conversion to the unsigned 8-bit type [byte]. *)
Definition to_byte (x : Z) : Z := x mod 256.

Definition in_byte (x : Z) : Prop := 0 <= x < 256.

End Machine.
Import Machine.

(** ** Double precision arithmetic *)

Module Double.

Definition prec : Z := 53.
Definition emax : Z := 1024.

Definition double : Type := spec_float.

(** Conversion of an integer to [double] (round to nearest even). *)
Definition of_Z (x : Z) : double := binary_normalize prec emax x 0 false.

Definition mul (x y : double) : double := SFmul prec emax x y.
Definition div (x y : double) : double := SFdiv prec emax x y.

(** The integer part of a [double], rounding toward zero. *)
Definition trunc (x : double) : Z :=
  match x with
  | S754_finite s m e =>
      let a := match e with
               | Zneg p => Z.shiftr (Zpos m) (Zpos p)
               | _ => Z.shiftl (Zpos m) e
               end in
      if s then - a else a
  | _ => 0
  end.

(** Conversion [double] to [int32_t]: the fraction is discarded.  C leaves
    the conversion undefined when the integer part does not fit (or for
    infinities and NaN); the model reduces modulo 2^32 there.  [loop] only
    passes frequencies between [minVal] and [maxVal], whose tuning words
    are below 2^31. *)
Definition to_int32 (x : double) : Z := wrap_long (trunc x).

End Double.

(** ** Pins, levels and events *)

Definition HIGH : Z := 1.
Definition LOW : Z := 0.

Definition buttonPin : Z := 13.
Definition encoderPin1 : Z := 19.
Definition encoderPin2 : Z := 18.
Definition W_CLK : Z := 5.
Definition FQ_UD : Z := 6.
Definition DATA : Z := 11.
Definition RESET : Z := 12.

Inductive pin_mode : Type := INPUT_PULLUP | OUTPUT.
Inductive irq_mode : Type := CHANGE | FALLING.
Inductive isr_name : Type := Isr_Encoder1 | Isr_Encoder2 | Isr_Button.

Inductive event : Type :=
| SerialBegin (baud : Z)
| PinMode (pin : Z) (mode : pin_mode)
| AttachInterrupt (pin : Z) (isr : isr_name) (mode : irq_mode)
| AnalogReadResolution (bits : Z)
| DigitalWrite (pin : Z) (level : Z)
| SerialFrequency (freq : Z)
| SerialIncrement (increment : Z).

(** [#define pulseHigh(pin) {digitalWrite(pin, HIGH); digitalWrite(pin, LOW); }] *)
Definition pulseHigh (pin : Z) : list event :=
  [DigitalWrite pin HIGH; DigitalWrite pin LOW].

(** ** Program constants *)

Definition startVal : Z := 1000.
Definition minVal : Z := 0.
Definition maxVal : Z := 32000000.
Definition startInc : Z := 1000.
Definition minInc : Z := 1.
Definition maxInc : Z := 1000000.
Definition divInc : Z := 10.

(** ** The globals *)

Record state : Type := mkState {
  encoderVal : Z;
  encoderInc : Z;
  encoderLH1 : bool;
  encoderLH2 : bool;
  lastEncoderVal : Z;
  lastEncoderInc : Z
}.

Definition set_encoderVal (v : Z) (st : state) : state :=
  mkState v (encoderInc st) (encoderLH1 st) (encoderLH2 st)
          (lastEncoderVal st) (lastEncoderInc st).

Definition set_encoderInc (v : Z) (st : state) : state :=
  mkState (encoderVal st) v (encoderLH1 st) (encoderLH2 st)
          (lastEncoderVal st) (lastEncoderInc st).

Definition set_encoderLH1 (b : bool) (st : state) : state :=
  mkState (encoderVal st) (encoderInc st) b (encoderLH2 st)
          (lastEncoderVal st) (lastEncoderInc st).

Definition set_encoderLH2 (b : bool) (st : state) : state :=
  mkState (encoderVal st) (encoderInc st) (encoderLH1 st) b
          (lastEncoderVal st) (lastEncoderInc st).

Definition set_lastEncoderVal (v : Z) (st : state) : state :=
  mkState (encoderVal st) (encoderInc st) (encoderLH1 st) (encoderLH2 st)
          v (lastEncoderInc st).

Definition set_lastEncoderInc (v : Z) (st : state) : state :=
  mkState (encoderVal st) (encoderInc st) (encoderLH1 st) (encoderLH2 st)
          (lastEncoderVal st) v.

(** The initialisers of the globals and of the two statics of [loop]. *)
Definition initial : state :=
  mkState startVal startInc false false 1 0.

(** ** The AD9850 serial link *)

(** [tfr_byte]: eight times, the low bit of [data] on DATA, a pulse on
    W_CLK, then [data >>= 1] in the type [byte]. *)
Fixpoint tfr_byte_loop (n : nat) (data : Z) : list event :=
  match n with
  | O => []
  | S n' =>
      DigitalWrite DATA (Z.land data 1) :: pulseHigh W_CLK
        ++ tfr_byte_loop n' (to_byte (Z.shiftr data 1))
  end.

Definition tfr_byte (data : Z) : list event :=
  tfr_byte_loop 8 (to_byte data).

(** The body of [sendFrequency] after the tuning word is computed: four
    times [tfr_byte(freq & 0xFF)] and [freq >>= 8] (an arithmetic shift on
    [int32_t]), then the control byte and the update pulse. *)
Fixpoint sendFrequency_loop (n : nat) (freq : Z) : list event :=
  match n with
  | O => []
  | S n' =>
      tfr_byte (Z.land freq 255) ++ sendFrequency_loop n' (Z.shiftr freq 8)
  end.

Definition sendFrequency_word (freq : Z) : list event :=
  sendFrequency_loop 4 freq ++ tfr_byte 0 ++ pulseHigh FQ_UD.

(** [int32_t freq = frequency * 4294967295/125000000;] : the product and the
    quotient are taken in [double], left to right, and the result is
    converted to [int32_t]. *)
Definition tuning_word (frequency : Double.double) : Z :=
  Double.to_int32
    (Double.div (Double.mul frequency (Double.of_Z 4294967295))
                (Double.of_Z 125000000)).

Definition sendFrequency (frequency : Double.double) : list event :=
  sendFrequency_word (tuning_word frequency).

(** ** Serial output *)

Definition printFreq (freq : Z) : list event := [SerialFrequency freq].
Definition printInc (increment : Z) : list event := [SerialIncrement increment].

(** ** setup *)

Definition setup : list event :=
  [ SerialBegin 115200;
    PinMode buttonPin INPUT_PULLUP;
    PinMode encoderPin1 INPUT_PULLUP;
    PinMode encoderPin2 INPUT_PULLUP;
    AttachInterrupt encoderPin1 Isr_Encoder1 CHANGE;
    AttachInterrupt encoderPin2 Isr_Encoder2 CHANGE;
    AttachInterrupt buttonPin Isr_Button FALLING;
    PinMode FQ_UD OUTPUT;
    PinMode W_CLK OUTPUT;
    PinMode DATA OUTPUT;
    PinMode RESET OUTPUT;
    AnalogReadResolution 12 ]
  ++ pulseHigh RESET
  ++ pulseHigh W_CLK
  ++ pulseHigh FQ_UD.

(** ** loop

    One pass of [loop] during which no interrupt is served. *)

Definition loop (st : state) : state * list event :=
  let '(st, out1) :=
    if negb (lastEncoderVal st =? encoderVal st) then
      let st := if encoderVal st >? maxVal
                then set_encoderVal maxVal st else st in
      let st := if encoderVal st <? minVal
                then set_encoderVal minVal st else st in
      (set_lastEncoderVal (encoderVal st) st,
       sendFrequency (Double.of_Z (encoderVal st)) ++ printFreq (encoderVal st))
    else (st, []) in
  let '(st, out2) :=
    if negb (lastEncoderInc st =? encoderInc st) then
      let st := if encoderInc st <? minInc
                then set_encoderInc maxInc st else st in
      (set_lastEncoderInc (encoderInc st) st, printInc (encoderInc st))
    else (st, []) in
  (st, out1 ++ out2).

(** ** Interrupt service routines *)

(** [encoderInc /= divInc;] : C division truncates toward zero. *)
Definition ISR_Button (st : state) : state :=
  set_encoderInc (Z.quot (encoderInc st) divInc) st.

(** [rd1] and [rd2] are the levels returned by the two [digitalRead] calls
    of the routine, in order. *)
Definition ISR_Encoder1 (rd1 rd2 : Z) (st : state) : state :=
  let st :=
    if rd1 =? HIGH then
      let st := set_encoderLH1 true st in
      if negb (encoderLH2 st)
      then set_encoderVal (wrap_long (encoderVal st + encoderInc st)) st
      else st
    else st in
  if rd2 =? LOW then set_encoderLH1 false st else st.

Definition ISR_Encoder2 (rd1 rd2 : Z) (st : state) : state :=
  let st :=
    if rd1 =? HIGH then
      let st := set_encoderLH2 true st in
      if negb (encoderLH1 st)
      then set_encoderVal (wrap_long (encoderVal st - encoderInc st)) st
      else st
    else st in
  if rd2 =? LOW then set_encoderLH2 false st else st.

(** ** Executions *)

(** What can happen after [setup]: an interrupt, with the levels its
    routine reads, or one pass of [loop]. *)
Inductive action : Type :=
| Button
| Encoder1 (rd1 rd2 : Z)
| Encoder2 (rd1 rd2 : Z)
| Loop.

Definition step (a : action) (st : state) : state * list event :=
  match a with
  | Button => (ISR_Button st, [])
  | Encoder1 rd1 rd2 => (ISR_Encoder1 rd1 rd2 st, [])
  | Encoder2 rd1 rd2 => (ISR_Encoder2 rd1 rd2 st, [])
  | Loop => loop st
  end.

Fixpoint run (acts : list action) (st : state) : state * list event :=
  match acts with
  | [] => (st, [])
  | a :: acts' =>
      let '(st1, out1) := step a st in
      let '(st2, out2) := run acts' st1 in
      (st2, out1 ++ out2)
  end.

(** The events of the whole program for a given schedule. *)
Definition firmware (acts : list action) : list event :=
  setup ++ snd (run acts initial).

Definition reachable (st : state) : Prop :=
  exists acts, fst (run acts initial) = st.

(** ** Vocabulary for the wire *)

(** What one transmitted bit looks like on the wire: the level on DATA,
    then W_CLK high, then W_CLK low. *)
Definition bit_cell (b : Z) : list event :=
  DigitalWrite DATA b :: pulseHigh W_CLK.

(** Bit [i] of [data], bit 0 being the least significant. *)
Definition bit_of (data : Z) (i : nat) : Z :=
  Z.land (Z.shiftr data (Z.of_nat i)) 1.

(** The eight bits of a byte, least significant first. *)
Definition byte_bits (data : Z) : list Z :=
  map (bit_of data) (seq 0 8).

(** The four bytes of a 32-bit word, least significant first, and the
    control byte. *)
Definition frame_bytes (w : Z) : list Z :=
  [ Z.land w 255; Z.land (Z.shiftr w 8) 255;
    Z.land (Z.shiftr w 16) 255; Z.land (Z.shiftr w 24) 255; 0 ].

Definition frame_bits (w : Z) : list Z :=
  flat_map byte_bits (frame_bytes w).

(** The number a little-endian byte sequence stands for. *)
Fixpoint word_of_le (bytes : list Z) : Z :=
  match bytes with
  | [] => 0
  | b :: bs => b + 256 * word_of_le bs
  end.

Definition writes_to (pin : Z) (e : event) : bool :=
  match e with
  | DigitalWrite p _ => p =? pin
  | _ => false
  end.

Definition is_write (pin level : Z) (e : event) : bool :=
  match e with
  | DigitalWrite p v => (p =? pin) && (v =? level)
  | _ => false
  end.

Definition count (f : event -> bool) (t : list event) : nat :=
  length (filter f t).

Definition digital_writes (t : list event) : list event :=
  filter (fun e => match e with DigitalWrite _ _ => true | _ => false end) t.

(** The receiving end of the link: the level of DATA is taken at every
    rising edge of W_CLK.  [data] and [clk] are the present levels of the
    two lines. *)
Fixpoint sample (data clk : Z) (t : list event) : list Z :=
  match t with
  | [] => []
  | DigitalWrite p v :: t' =>
      if p =? DATA then sample v clk t'
      else if p =? W_CLK then
        if (clk =? LOW) && (v =? HIGH)
        then data :: sample data v t'
        else sample data v t'
      else sample data clk t'
  | _ :: t' => sample data clk t'
  end.

Fixpoint bytes_of_bits (bits : list Z) : list Z :=
  match bits with
  | b0 :: b1 :: b2 :: b3 :: b4 :: b5 :: b6 :: b7 :: rest =>
      (b0 + 2 * b1 + 4 * b2 + 8 * b3 + 16 * b4 + 32 * b5 + 64 * b6 + 128 * b7)
        :: bytes_of_bits rest
  | _ => []
  end.

Definition received_bytes (t : list event) : list Z :=
  bytes_of_bits (sample LOW LOW t).

(** ** Vocabulary for the encoder and the step size *)

(** The step sizes the program is meant to move through. *)
Definition decade (d : Z) : Prop :=
  In d [1; 10; 100; 1000; 10000; 100000; 1000000].

(** A button press followed by one pass of [loop]. *)
Definition press_then_observe (st : state) : state :=
  fst (loop (ISR_Button st)).

(** What a press followed by a pass of [loop] makes of the increment when
    the pass notices the press. *)
Definition next_increment (d : Z) : Z :=
  if Z.quot d divInc <? minInc then maxInc else Z.quot d divInc.

(** The interrupts of the two encoder channels. *)
Definition encoder_edge (a : action) : bool :=
  match a with
  | Encoder1 _ _ | Encoder2 _ _ => true
  | Button | Loop => false
  end.

(** One clockwise detent of a quadrature encoder: A rises, B rises, A falls,
    B falls. *)
Definition cw_detent : list action :=
  [ Encoder1 HIGH HIGH; Encoder2 HIGH HIGH; Encoder1 LOW LOW; Encoder2 LOW LOW ].

(** The end-to-end scenario, for a given rendering of "one clockwise
    detent": from the initial globals, a detent, a button press observed by
    [loop], another detent, and the tuning word of the resulting frequency.
    The result lists the value after the first detent, the increment after
    the press, the value after the second detent, and the tuning word. *)
Definition scenario (detent : list action) : Z * Z * Z * Z :=
  let s1 := fst (run detent initial) in
  let s2 := fst (run [Button; Loop] s1) in
  let s3 := fst (run detent s2) in
  (encoderVal s1, encoderInc s2, encoderVal s3,
   tuning_word (Double.of_Z (encoderVal s3))).

(** The frequency a tuning word stands for, from the data sheet formula the
    source quotes: system clock times tuning word over 2^32. *)
Definition decode (w : Z) : Q := (w * 125000000) # (2 ^ 32).

(** One tuning-word step in Hz. *)
Definition quantization_step : Q := 125000000 # (2 ^ 32).

(** One counter-clockwise detent: B rises, A rises, B falls, A falls. *)
Definition ccw_detent : list action :=
  [ Encoder2 HIGH HIGH; Encoder1 HIGH HIGH; Encoder2 LOW LOW; Encoder1 LOW LOW ].

(** Contact bounce on channel A: the line rises and falls [n] times. *)
Fixpoint bounce_A (n : nat) : list action :=
  match n with
  | O => []
  | S n' => Encoder1 HIGH HIGH :: Encoder1 LOW LOW :: bounce_A n'
  end.


(** The zero and the decade values. *)
Definition zero_or_decade (d : Z) : Prop := d = 0 \/ decade d.

(** ** Interrupts during a pass of [loop]

    [encoderVal] and [encoderInc] are [volatile] and the three routines stay
    attached while [loop] runs, so [loop] reads them afresh at every mention
    and an interrupt can be served between any two of its accesses.  The
    accesses of a pass, in order:
    - 1: the read of [encoderVal] in the test of line 127;
    - 2, 3: the read and the write of line 128;
    - 4, 5: the read and the write of line 129;
    - 6, 7, 8: the reads for [sendFrequency], for [printFreq] and for the
      snapshot, lines 130 to 132;
    - 9: the read of [encoderInc] in the test of line 135;
    - 10, 11: the read and the write of line 136;
    - 12, 13: the reads for [printInc] and for the snapshot, lines 137, 138.
    An interrupt that arrives while [sendFrequency] or a print function runs
    is served before the next access; these functions take their argument
    by value and the routines write to no pin. *)

Inductive interrupt : Type :=
| Irq_Button
| Irq_Encoder1 (rd1 rd2 : Z)
| Irq_Encoder2 (rd1 rd2 : Z).

Definition isr (i : interrupt) (st : state) : state :=
  match i with
  | Irq_Button => ISR_Button st
  | Irq_Encoder1 rd1 rd2 => ISR_Encoder1 rd1 rd2 st
  | Irq_Encoder2 rd1 rd2 => ISR_Encoder2 rd1 rd2 st
  end.

(** The routines of a burst of interrupts, one after the other. *)
Definition serve (irqs : list interrupt) (st : state) : state :=
  fold_left (fun s i => isr i s) irqs st.

(** The interrupts served just before each access of a pass. *)
Definition schedule : Type := nat -> list interrupt.

(** No interrupt during the pass. *)
Definition quiet : schedule := fun _ => [].

Definition is_button (i : interrupt) : bool :=
  match i with
  | Irq_Button => true
  | Irq_Encoder1 _ _ | Irq_Encoder2 _ _ => false
  end.

(** One pass of [loop] with the interrupts of [irqs] served before its
    accesses to the volatile globals. *)
Definition loop_preempted (irqs : schedule) (st : state)
  : state * list event :=
  let st := serve (irqs 1%nat) st in
  let '(st, out1) :=
    if negb (lastEncoderVal st =? encoderVal st) then
      let st := serve (irqs 2%nat) st in
      let st := if encoderVal st >? maxVal
                then set_encoderVal maxVal (serve (irqs 3%nat) st) else st in
      let st := serve (irqs 4%nat) st in
      let st := if encoderVal st <? minVal
                then set_encoderVal minVal (serve (irqs 5%nat) st) else st in
      let st := serve (irqs 6%nat) st in
      let out_send := sendFrequency (Double.of_Z (encoderVal st)) in
      let st := serve (irqs 7%nat) st in
      let out_print := printFreq (encoderVal st) in
      let st := serve (irqs 8%nat) st in
      (set_lastEncoderVal (encoderVal st) st, out_send ++ out_print)
    else (st, []) in
  let st := serve (irqs 9%nat) st in
  let '(st, out2) :=
    if negb (lastEncoderInc st =? encoderInc st) then
      let st := serve (irqs 10%nat) st in
      let st := if encoderInc st <? minInc
                then set_encoderInc maxInc (serve (irqs 11%nat) st) else st in
      let st := serve (irqs 12%nat) st in
      let out_print := printInc (encoderInc st) in
      let st := serve (irqs 13%nat) st in
      (set_lastEncoderInc (encoderInc st) st, out_print)
    else (st, []) in
  (st, out1 ++ out2).

(** The two halves of [loop_preempted]: lines 127 to 133 after the
    interrupts before access 1, and lines 135 to 139 after those before
    access 9. *)
Definition pass_value (irqs : schedule) (st : state) : state * list event :=
  if negb (lastEncoderVal st =? encoderVal st) then
    let st := serve (irqs 2%nat) st in
    let st := if encoderVal st >? maxVal
              then set_encoderVal maxVal (serve (irqs 3%nat) st) else st in
    let st := serve (irqs 4%nat) st in
    let st := if encoderVal st <? minVal
              then set_encoderVal minVal (serve (irqs 5%nat) st) else st in
    let st := serve (irqs 6%nat) st in
    let out_send := sendFrequency (Double.of_Z (encoderVal st)) in
    let st := serve (irqs 7%nat) st in
    let out_print := printFreq (encoderVal st) in
    let st := serve (irqs 8%nat) st in
    (set_lastEncoderVal (encoderVal st) st, out_send ++ out_print)
  else (st, []).

Definition pass_increment (irqs : schedule) (st : state)
  : state * list event :=
  if negb (lastEncoderInc st =? encoderInc st) then
    let st := serve (irqs 10%nat) st in
    let st := if encoderInc st <? minInc
              then set_encoderInc maxInc (serve (irqs 11%nat) st) else st in
    let st := serve (irqs 12%nat) st in
    let out_print := printInc (encoderInc st) in
    let st := serve (irqs 13%nat) st in
    (set_lastEncoderInc (encoderInc st) st, out_print)
  else (st, []).

(** The value brought into the legal range. *)
Definition clamp (v : Z) : Z := Z.max minVal (Z.min maxVal v).



(** A counter-clockwise edge before the pass looks at the value and a
    button press while the pass runs. *)
Definition edge_before_pass : schedule :=
  fun k => match k with
           | 1%nat => [Irq_Encoder2 HIGH HIGH]
           | 7%nat => [Irq_Button]
           | _ => []
           end.

(** ** The build for the MSP430FR6989 LaunchPad

    With [__MSP430FR6989] defined the sketch also drives the segment LCD of
    the board.  [int] is 16 bits wide on the MSP430.  The calls into the
    [LCD_Launchpad] library are events; the library itself is not part of
    the sketch. *)

Module FR6989.

Inductive lcd_symbol : Type :=
| LCD_SEG_DOT1 | LCD_SEG_DOT2 | LCD_SEG_DOT3 | LCD_SEG_DOT4 | LCD_SEG_DOT5
| LCD_SEG_BAT0 | LCD_SEG_BAT1 | LCD_SEG_BAT2
| LCD_SEG_BAT3 | LCD_SEG_BAT4 | LCD_SEG_BAT5.

Inductive output : Type :=
| Base (e : event)
| LcdInit
| LcdClear
| LcdPrintln (n : Z)
| LcdShowSymbol (symbol : lcd_symbol) (on : Z)
| LcdShowChar (c : ascii) (position : Z).

(** Conversion to the 16-bit [int]. *)
Definition to_int (x : Z) : Z := (x + 2 ^ 15) mod 2 ^ 16 - 2 ^ 15.

(** The five calls [lcd.showSymbol(LCD_SEG_DOTi, di)] every branch of
    [printFreq] makes, in the order DOT1 to DOT5. *)
Definition show_dots (d1 d2 d3 d4 d5 : Z) : list output :=
  [ LcdShowSymbol LCD_SEG_DOT1 d1; LcdShowSymbol LCD_SEG_DOT2 d2;
    LcdShowSymbol LCD_SEG_DOT3 d3; LcdShowSymbol LCD_SEG_DOT4 d4;
    LcdShowSymbol LCD_SEG_DOT5 d5 ].

(** The six calls [lcd.showSymbol(LCD_SEG_BATi, bi)] every branch of
    [printInc] makes, in the order BAT0 to BAT5. *)
Definition show_bars (b0 b1 b2 b3 b4 b5 : Z) : list output :=
  [ LcdShowSymbol LCD_SEG_BAT0 b0; LcdShowSymbol LCD_SEG_BAT1 b1;
    LcdShowSymbol LCD_SEG_BAT2 b2; LcdShowSymbol LCD_SEG_BAT3 b3;
    LcdShowSymbol LCD_SEG_BAT4 b4; LcdShowSymbol LCD_SEG_BAT5 b5 ].

(** [printInc]: the serial line shows the argument, the battery segments
    follow the global [encoderInc]. *)
Definition printInc (st : state) (increment : Z) : list output :=
  Base (SerialIncrement increment) ::
  if encoderInc st =? 1000000 then show_bars 1 1 1 1 1 1
  else if encoderInc st =? 100000 then show_bars 1 1 1 1 1 0
  else if encoderInc st =? 10000 then show_bars 1 1 1 1 0 0
  else if encoderInc st =? 1000 then show_bars 1 1 1 0 0 0
  else if encoderInc st =? 100 then show_bars 1 1 0 0 0 0
  else if encoderInc st =? 10 then show_bars 1 0 0 0 0 0
  else show_bars 0 0 0 0 0 0.

(** [printFreq]: [freq/1000] and the like are C divisions of [long];
    all branches but the first convert the number to [int]. *)
Definition printFreq (st : state) (freq : Z) : list output :=
  Base (SerialFrequency freq) :: LcdClear ::
  if freq >? 9999999 then
    LcdPrintln (Z.quot freq 1000) :: show_dots 0 1 0 0 0
      ++ LcdShowChar "M" 5 :: printInc st (encoderInc st)
  else if freq >? 999999 then
    LcdPrintln (to_int (Z.quot freq 1000)) :: show_dots 1 0 0 0 0
      ++ LcdShowChar "M" 5 :: printInc st (encoderInc st)
  else if freq >? 99999 then
    LcdPrintln (to_int (Z.quot freq 100)) :: show_dots 0 0 1 0 0
      ++ LcdShowChar "k" 5 :: printInc st (encoderInc st)
  else if freq >? 9999 then
    LcdPrintln (to_int (Z.quot freq 10)) :: show_dots 0 1 0 0 0
      ++ LcdShowChar "k" 5 :: printInc st (encoderInc st)
  else
    LcdPrintln (to_int freq) :: show_dots 0 0 0 0 0
      ++ printInc st (encoderInc st).

(** [setup] with [lcd.init()] after [Serial.begin]. *)
Definition setup : list output :=
  match setup with
  | serial_begin :: rest => Base serial_begin :: LcdInit :: map Base rest
  | [] => []
  end.

(** [loop] with the two print functions of this build, for a pass during
    which no interrupt is served. *)
Definition loop (st : state) : state * list output :=
  let '(st, out1) :=
    if negb (lastEncoderVal st =? encoderVal st) then
      let st := if encoderVal st >? maxVal
                then set_encoderVal maxVal st else st in
      let st := if encoderVal st <? minVal
                then set_encoderVal minVal st else st in
      (set_lastEncoderVal (encoderVal st) st,
       map Base (sendFrequency (Double.of_Z (encoderVal st)))
         ++ printFreq st (encoderVal st))
    else (st, []) in
  let '(st, out2) :=
    if negb (lastEncoderInc st =? encoderInc st) then
      let st := if encoderInc st <? minInc
                then set_encoderInc maxInc st else st in
      (set_lastEncoderInc (encoderInc st) st, printInc st (encoderInc st))
    else (st, []) in
  (st, out1 ++ out2).

(** *** Reading the display events *)

(** The events of the plain build among the outputs. *)
Fixpoint base_events (out : list output) : list event :=
  match out with
  | [] => []
  | Base e :: out' => e :: base_events out'
  | _ :: out' => base_events out'
  end.

(** The numbers handed to [lcd.println]. *)
Fixpoint printed (out : list output) : list Z :=
  match out with
  | [] => []
  | LcdPrintln n :: out' => n :: printed out'
  | _ :: out' => printed out'
  end.

(** The characters handed to [lcd.showChar]. *)
Fixpoint unit_chars (out : list output) : list ascii :=
  match out with
  | [] => []
  | LcdShowChar c _ :: out' => c :: unit_chars out'
  | _ :: out' => unit_chars out'
  end.

Definition symbol_index (s : lcd_symbol) : nat :=
  match s with
  | LCD_SEG_DOT1 => 0 | LCD_SEG_DOT2 => 1 | LCD_SEG_DOT3 => 2
  | LCD_SEG_DOT4 => 3 | LCD_SEG_DOT5 => 4
  | LCD_SEG_BAT0 => 5 | LCD_SEG_BAT1 => 6 | LCD_SEG_BAT2 => 7
  | LCD_SEG_BAT3 => 8 | LCD_SEG_BAT4 => 9 | LCD_SEG_BAT5 => 10
  end.

(** The value of the last [lcd.showSymbol] call for a symbol, [cur] when
    there is none. *)
Fixpoint shown (s : lcd_symbol) (cur : option Z) (out : list output)
  : option Z :=
  match out with
  | [] => cur
  | LcdShowSymbol s' on :: out' =>
      if Nat.eqb (symbol_index s') (symbol_index s)
      then shown s (Some on) out'
      else shown s cur out'
  | _ :: out' => shown s cur out'
  end.

Definition dots : list lcd_symbol :=
  [LCD_SEG_DOT1; LCD_SEG_DOT2; LCD_SEG_DOT3; LCD_SEG_DOT4; LCD_SEG_DOT5].

Definition bars : list lcd_symbol :=
  [LCD_SEG_BAT0; LCD_SEG_BAT1; LCD_SEG_BAT2;
   LCD_SEG_BAT3; LCD_SEG_BAT4; LCD_SEG_BAT5].

(** The dots left lit by a sequence of outputs, as positions 1 to 5. *)
Definition lit_dots (out : list output) : list Z :=
  map fst
    (filter (fun p => match shown (snd p) None out with
                      | Some on => negb (on =? 0)
                      | None => false
                      end)
            (combine [1; 2; 3; 4; 5] dots)).

(** Which of the six bars a sequence of outputs leaves lit. *)
Definition lit_bars (out : list output) : list bool :=
  map (fun s => match shown s None out with
                | Some on => negb (on =? 0)
                | None => false
                end) bars.

(** The number of decimal digits of a number below 100000. *)
Definition digits10 (n : Z) : Z :=
  if n <? 10 then 1 else if n <? 100 then 2 else if n <? 1000 then 3
  else if n <? 10000 then 4 else 5.

(** The unit a character on the display stands for, in Hz. *)
Definition unit_hz (c : ascii) : Z :=
  if Ascii.eqb c "M" then 1000000
  else if Ascii.eqb c "k" then 1000 else 1.

End FR6989.

(** The part of [FR6989.printFreq] before its final call of [printInc]:
    the serial line, [lcd.clear()], the number, the five dots and the unit
    character, if any. *)
Definition printFreq_head (freq n : Z) (ds cs : list FR6989.output)
  : list FR6989.output :=
  FR6989.Base (SerialFrequency freq) :: FR6989.LcdClear
    :: FR6989.LcdPrintln n :: ds ++ cs.

(** * Properties *)

(** ** Bytes and bits *)

Section Bytes.

Lemma land_255_byte x : in_byte (Z.land x 255).
Proof.
  unfold in_byte. change 255 with (Z.ones 8).
  rewrite Z.land_ones by lia. apply Z.mod_pos_bound. reflexivity.
Qed.

Lemma to_byte_id x : in_byte x -> to_byte x = x.
Proof. unfold in_byte, to_byte. intros H. apply Z.mod_small. exact H. Qed.

Lemma shiftr_byte x k : in_byte x -> 0 <= k -> in_byte (Z.shiftr x k).
Proof.
  unfold in_byte. intros H Hk. rewrite Z.shiftr_div_pow2 by lia.
  assert (0 < 2 ^ k) by (apply Z.pow_pos_nonneg; lia).
  split.
  - apply Z.div_pos; lia.
  - apply Z.le_lt_trans with x; [|lia].
    apply Z.div_le_upper_bound; nia.
Qed.

Lemma bit_of_mod data i : bit_of data i = (data / 2 ^ Z.of_nat i) mod 2.
Proof.
  unfold bit_of. change 1 with (Z.ones 1). rewrite Z.land_ones by lia.
  rewrite Z.shiftr_div_pow2 by lia. reflexivity.
Qed.

Lemma byte_bits_value data rest :
  in_byte data ->
  bytes_of_bits (byte_bits data ++ rest) = data :: bytes_of_bits rest.
Proof.
  unfold in_byte, byte_bits. intros Hb.
  cbn [map seq app bytes_of_bits]. rewrite !bit_of_mod.
  f_equal.
  change (2 ^ Z.of_nat 0) with 1.
  change (2 ^ Z.of_nat 1) with 2.
  change (2 ^ Z.of_nat 2) with (2 * 2).
  change (2 ^ Z.of_nat 3) with (2 * 2 * 2).
  change (2 ^ Z.of_nat 4) with (2 * 2 * 2 * 2).
  change (2 ^ Z.of_nat 5) with (2 * 2 * 2 * 2 * 2).
  change (2 ^ Z.of_nat 6) with (2 * 2 * 2 * 2 * 2 * 2).
  change (2 ^ Z.of_nat 7) with (2 * 2 * 2 * 2 * 2 * 2 * 2).
  rewrite <- !Z.div_div by lia.
  rewrite Z.div_1_r.
  assert (Hq : data / 2 / 2 / 2 / 2 / 2 / 2 / 2 / 2 = 0).
  { rewrite !Z.div_div by lia. apply Z.div_small. lia. }
  rewrite (Z.mod_eq (data / 2 / 2 / 2 / 2 / 2 / 2 / 2) 2), Hq by lia.
  rewrite !Z.mod_eq by lia.
  ring.
Qed.

Lemma bytes_of_byte_bits bytes :
  Forall in_byte bytes ->
  bytes_of_bits (flat_map byte_bits bytes) = bytes.
Proof.
  induction 1 as [|b bs Hb _ IH]; [reflexivity|].
  cbn [flat_map]. rewrite byte_bits_value by exact Hb.
  rewrite IH. reflexivity.
Qed.

Lemma frame_bytes_in_byte w : Forall in_byte (frame_bytes w).
Proof.
  unfold frame_bytes.
  repeat (apply Forall_cons; [apply land_255_byte|]).
  apply Forall_cons; [unfold in_byte; lia | apply Forall_nil].
Qed.

(** The four tuning-word bytes are the base-256 digits of the word read
    as an unsigned 32-bit number. *)
Lemma frame_bytes_word w :
  word_of_le (firstn 4 (frame_bytes w)) = w mod 2 ^ 32.
Proof.
  unfold frame_bytes. cbn [firstn word_of_le].
  change 255 with (Z.ones 8). rewrite !Z.land_ones by lia.
  rewrite !Z.shiftr_div_pow2 by lia.
  change (2 ^ 8) with 256.
  change (2 ^ 16) with (256 * 256).
  change (2 ^ 24) with (256 * 256 * 256).
  change (2 ^ 32) with (256 * 256 * 256 * 256).
  rewrite <- !Z.div_div by lia.
  rewrite !Z.mod_eq by lia.
  rewrite <- !Z.div_div by lia.
  ring.
Qed.

End Bytes.

(** ** The frame on the wire *)

Section Wire.

Lemma tfr_byte_loop_cells n : forall data k,
  in_byte data ->
  tfr_byte_loop n (Z.shiftr data (Z.of_nat k)) =
  flat_map bit_cell (map (bit_of data) (seq k n)).
Proof.
  induction n as [|n IH]; intros data k Hb.
  - reflexivity.
  - cbn [tfr_byte_loop seq map flat_map].
    unfold bit_cell at 1. cbn [app]. unfold bit_of at 1.
    f_equal. f_equal. f_equal.
    rewrite to_byte_id.
    + rewrite Z.shiftr_shiftr by lia.
      replace (Z.of_nat k + 1) with (Z.of_nat (S k)) by lia.
      apply IH. exact Hb.
    + apply shiftr_byte; [apply shiftr_byte|]; lia || assumption.
Qed.

Lemma tfr_byte_cells data :
  in_byte data -> tfr_byte data = flat_map bit_cell (byte_bits data).
Proof.
  intros Hb. unfold tfr_byte, byte_bits. rewrite to_byte_id by exact Hb.
  rewrite <- (tfr_byte_loop_cells 8 data 0 Hb). reflexivity.
Qed.

Lemma sendFrequency_word_bytes w :
  sendFrequency_word w =
  flat_map tfr_byte (frame_bytes w) ++ pulseHigh FQ_UD.
Proof.
  unfold sendFrequency_word, frame_bytes.
  cbn [sendFrequency_loop flat_map].
  rewrite !Z.shiftr_shiftr by lia.
  change (8 + 8) with 16. change (16 + 8) with 24.
  rewrite !app_nil_r, <- !app_assoc. reflexivity.
Qed.

Lemma flat_map_tfr_byte bytes :
  Forall in_byte bytes ->
  flat_map tfr_byte bytes = flat_map bit_cell (flat_map byte_bits bytes).
Proof.
  induction 1 as [|b bs Hb _ IH].
  - reflexivity.
  - cbn [flat_map]. rewrite flat_map_app, IH, tfr_byte_cells by exact Hb.
    reflexivity.
Qed.

Lemma sendFrequency_word_cells w :
  sendFrequency_word w =
  flat_map bit_cell (frame_bits w) ++ pulseHigh FQ_UD.
Proof.
  rewrite sendFrequency_word_bytes, flat_map_tfr_byte
    by apply frame_bytes_in_byte.
  reflexivity.
Qed.

Lemma frame_bits_length w : length (frame_bits w) = 40%nat.
Proof. reflexivity. Qed.

Lemma count_app f t1 t2 :
  count f (t1 ++ t2) = (count f t1 + count f t2)%nat.
Proof. unfold count. rewrite filter_app, length_app. reflexivity. Qed.

Lemma count_none f t :
  (forall e, In e t -> f e = false) -> count f t = 0%nat.
Proof.
  unfold count. induction t as [|a t IH]; intros H; [reflexivity|].
  cbn [filter]. rewrite H by (left; reflexivity).
  apply IH. intros e He. apply H. right. exact He.
Qed.

Lemma count_cells_data bits :
  count (writes_to DATA) (flat_map bit_cell bits) = length bits.
Proof.
  induction bits as [|b bs IH]; [reflexivity|].
  cbn [flat_map]. rewrite count_app, IH. reflexivity.
Qed.

Lemma count_cells_clk level bits :
  level = HIGH \/ level = LOW ->
  count (is_write W_CLK level) (flat_map bit_cell bits) = length bits.
Proof.
  intros Hl.
  induction bits as [|b bs IH]; [reflexivity|].
  cbn [flat_map]. rewrite count_app, IH.
  destruct Hl as [-> | ->]; reflexivity.
Qed.

Lemma cells_no_update bits e :
  In e (flat_map bit_cell bits) -> writes_to FQ_UD e = false.
Proof.
  induction bits as [|b bs IH]; cbn [flat_map]; [intros []|].
  intros H. apply in_app_or in H. destruct H as [H | H]; [|auto].
  cbn in H. destruct H as [<- | [<- | [<- | []]]]; reflexivity.
Qed.

(** If no event of [l] is marked and the first part of a trace is [l],
    then everything before a marked event starts with [l]. *)
Lemma prefix_before_mark (f : event -> bool) l : forall tail pre e post,
  (forall x, In x l -> f x = false) ->
  f e = true ->
  l ++ tail = pre ++ e :: post ->
  exists mid, pre = l ++ mid /\ tail = mid ++ e :: post.
Proof.
  induction l as [|a l IH]; intros tail pre e post Hl He Heq.
  - exists pre. split; [reflexivity | exact Heq].
  - destruct pre as [|p pre]; cbn in Heq; injection Heq as Ha Heq.
    + subst a. rewrite Hl in He by (left; reflexivity). discriminate.
    + subst p. destruct (IH tail pre e post) as [mid [Hp Ht]]; auto.
      * intros x Hx. apply Hl. right. exact Hx.
      * exists mid. split; [cbn; f_equal; exact Hp | exact Ht].
Qed.

(** Before the first write to FQ_UD the whole run of bit cells is out. *)
Lemma update_after_cells bits pre level post :
  flat_map bit_cell bits ++ pulseHigh FQ_UD =
    pre ++ DigitalWrite FQ_UD level :: post ->
  pre = flat_map bit_cell bits
  \/ pre = flat_map bit_cell bits ++ [DigitalWrite FQ_UD HIGH].
Proof.
  intros Heq.
  destruct (prefix_before_mark (writes_to FQ_UD)
              (flat_map bit_cell bits) (pulseHigh FQ_UD)
              pre (DigitalWrite FQ_UD level) post
              (cells_no_update bits) eq_refl Heq) as [mid [-> Hmid]].
  unfold pulseHigh in Hmid.
  destruct mid as [|m1 [|m2 [|m3 mid]]]; cbn in Hmid.
  - left. rewrite app_nil_r. reflexivity.
  - right. injection Hmid as <- _. reflexivity.
  - injection Hmid as _ _ Hnil. discriminate.
  - injection Hmid as _ _ Hnil. discriminate.
Qed.

Lemma sample_cells bits : forall data rest,
  exists data', sample data LOW (flat_map bit_cell bits ++ rest) =
                bits ++ sample data' LOW rest.
Proof.
  induction bits as [|b bs IH]; intros data rest.
  - exists data. reflexivity.
  - destruct (IH b rest) as [data' IH'].
    exists data'.
    cbn [flat_map bit_cell pulseHigh app sample].
    change (DATA =? DATA) with true. change (W_CLK =? DATA) with false.
    change (W_CLK =? W_CLK) with true. cbv iota.
    change ((LOW =? LOW) && (HIGH =? HIGH)) with true.
    change ((HIGH =? LOW) && (LOW =? HIGH)) with false. cbv iota.
    rewrite IH'. reflexivity.
Qed.

End Wire.

(** C2: every frame of [sendFrequency] is forty bit cells, the bits of the
    five bytes each least significant bit first, every cell being the level
    on DATA followed by one high-then-low pulse of W_CLK (forty writes to
    DATA, forty pulses), and the only writes to FQ_UD are the one pulse at
    the very end: whatever precedes a write to FQ_UD contains all forty
    cells. *)
Theorem sendFrequency_framing (frequency : Double.double) :
  let w := tuning_word frequency in
  let t := sendFrequency frequency in
  t = flat_map bit_cell (flat_map byte_bits (frame_bytes w))
        ++ [DigitalWrite FQ_UD HIGH; DigitalWrite FQ_UD LOW]
  /\ length (flat_map byte_bits (frame_bytes w)) = 40%nat
  /\ count (writes_to DATA) t = 40%nat
  /\ count (is_write W_CLK HIGH) t = 40%nat
  /\ count (is_write W_CLK LOW) t = 40%nat
  /\ count (writes_to FQ_UD) t = 2%nat
  /\ forall pre level post,
       t = pre ++ DigitalWrite FQ_UD level :: post ->
       count (writes_to DATA) pre = 40%nat
       /\ count (is_write W_CLK HIGH) pre = 40%nat
       /\ count (is_write W_CLK LOW) pre = 40%nat.
Proof.
  intros w t.
  assert (Ht : t = flat_map bit_cell (frame_bits w) ++ pulseHigh FQ_UD)
    by apply sendFrequency_word_cells.
  assert (Hd : forall bits tail,
             count (writes_to DATA) tail = 0%nat ->
             length bits = 40%nat ->
             count (writes_to DATA) (flat_map bit_cell bits ++ tail) = 40%nat).
  { intros bits tail H0 H40.
    rewrite count_app, count_cells_data, H0, H40. reflexivity. }
  assert (Hc : forall level bits tail,
             level = HIGH \/ level = LOW ->
             count (is_write W_CLK level) tail = 0%nat ->
             length bits = 40%nat ->
             count (is_write W_CLK level) (flat_map bit_cell bits ++ tail)
             = 40%nat).
  { intros level bits tail Hl H0 H40.
    rewrite count_app, count_cells_clk, H0, H40 by exact Hl. reflexivity. }
  pose proof (frame_bits_length w) as H40.
  assert (H0 : count (writes_to FQ_UD) (flat_map bit_cell (frame_bits w))
               = 0%nat).
  { apply count_none. intros e He. apply cells_no_update in He. exact He. }
  clearbody t. subst t.
  split; [reflexivity|].
  split; [exact H40|].
  split; [apply Hd; [reflexivity | exact H40]|].
  split; [apply Hc; [left; reflexivity | reflexivity | exact H40]|].
  split; [apply Hc; [right; reflexivity | reflexivity | exact H40]|].
  split; [rewrite count_app, H0; reflexivity|].
  intros pre level post H.
  destruct (update_after_cells _ _ _ _ H) as [-> | ->].
  - rewrite <- (app_nil_r (flat_map _ _)).
    split; [apply Hd; [reflexivity | exact H40]|].
    split; apply Hc; try reflexivity; try exact H40;
      [left | right]; reflexivity.
  - split; [apply Hd; [reflexivity | exact H40]|].
    split; apply Hc; try reflexivity; try exact H40;
      [left | right]; reflexivity.
Qed.

(** C6: one call of [sendFrequency] hands exactly five bytes to [tfr_byte]:
    the four bytes of the tuning word, least significant byte first (read
    little-endian they give back the word as an unsigned 32-bit number),
    then a byte that is zero; and the receiver, taking DATA at each rising
    edge of W_CLK, gets exactly these five bytes. *)
Theorem sendFrequency_five_bytes (frequency : Double.double) :
  let w := tuning_word frequency in
  sendFrequency frequency =
    flat_map tfr_byte (frame_bytes w) ++ pulseHigh FQ_UD
  /\ length (frame_bytes w) = 5%nat
  /\ word_of_le (firstn 4 (frame_bytes w)) = w mod 2 ^ 32
  /\ skipn 4 (frame_bytes w) = [0]
  /\ Forall in_byte (frame_bytes w)
  /\ received_bytes (sendFrequency frequency) = frame_bytes w.
Proof.
  intros w.
  split; [apply sendFrequency_word_bytes|].
  split; [reflexivity|].
  split; [apply frame_bytes_word|].
  split; [reflexivity|].
  split; [apply frame_bytes_in_byte|].
  unfold received_bytes, sendFrequency. fold w.
  rewrite sendFrequency_word_cells.
  destruct (sample_cells (frame_bits w) LOW (pulseHigh FQ_UD)) as [d ->].
  change (sample d LOW (pulseHigh FQ_UD)) with (@nil Z).
  rewrite app_nil_r. apply bytes_of_byte_bits, frame_bytes_in_byte.
Qed.

(** ** The globals under the routines *)

Ltac zbool :=
  repeat match goal with
    | H : negb _ = true |- _ => apply negb_true_iff in H
    | H : negb _ = false |- _ => apply negb_false_iff in H
    | H : (_ =? _) = true |- _ => apply Z.eqb_eq in H
    | H : (_ =? _) = false |- _ => apply Z.eqb_neq in H
    | H : (_ <? _) = true |- _ => apply Z.ltb_lt in H
    | H : (_ <? _) = false |- _ => apply Z.ltb_ge in H
    | H : (_ >? _) = true |- _ => rewrite Z.gtb_ltb in H
    | H : (_ >? _) = false |- _ => rewrite Z.gtb_ltb in H
    end.

Ltac unfold_setters :=
  unfold set_encoderVal, set_encoderInc, set_encoderLH1, set_encoderLH2,
    set_lastEncoderVal, set_lastEncoderInc in *;
  cbn [encoderVal encoderInc encoderLH1 encoderLH2
       lastEncoderVal lastEncoderInc] in *.

Ltac if_cases :=
  repeat match goal with
    | |- context [if ?c then _ else _] =>
        let E := fresh "E" in destruct c eqn:E; unfold_setters
    end;
  cbn [fst snd] in *; unfold_setters; zbool;
  unfold minVal, maxVal, minInc, maxInc, divInc, HIGH, LOW in *.

Ltac loop_cases := unfold loop; unfold_setters; if_cases.

Section Loop.

Variable st : state.

Lemma loop_encoderVal_range :
  minVal <= lastEncoderVal st <= maxVal ->
  minVal <= encoderVal (fst (loop st)) <= maxVal.
Proof. destruct st. intros H. loop_cases; lia. Qed.

Lemma loop_lastEncoderVal_range :
  minVal <= lastEncoderVal st <= maxVal ->
  minVal <= lastEncoderVal (fst (loop st)) <= maxVal.
Proof. destruct st. intros H. loop_cases; lia. Qed.

Lemma loop_clamps_low :
  minVal <= lastEncoderVal st <= maxVal ->
  encoderVal st < minVal -> encoderVal (fst (loop st)) = minVal.
Proof. destruct st. intros H Hlow. loop_cases; lia. Qed.

Lemma loop_clamps_high :
  minVal <= lastEncoderVal st <= maxVal ->
  encoderVal st > maxVal -> encoderVal (fst (loop st)) = maxVal.
Proof. destruct st. intros H Hhigh. loop_cases; lia. Qed.

Lemma loop_keeps_legal :
  minVal <= encoderVal st <= maxVal ->
  encoderVal (fst (loop st)) = encoderVal st.
Proof. destruct st. intros H. loop_cases; lia. Qed.

Lemma loop_encoderInc :
  encoderInc (fst (loop st)) =
  if negb (lastEncoderInc st =? encoderInc st) && (encoderInc st <? minInc)
  then maxInc else encoderInc st.
Proof. destruct st. loop_cases; cbn [negb andb] in *; lia. Qed.

Lemma loop_lastEncoderInc :
  lastEncoderInc (fst (loop st)) = encoderInc (fst (loop st)).
Proof. destruct st. loop_cases; lia. Qed.

End Loop.

Section Interrupts.

Variable st : state.

Lemma wrap_long_id x : in_long x -> wrap_long x = x.
Proof.
  unfold in_long, wrap_long. intros H.
  rewrite Z.mod_small; lia.
Qed.

Lemma ISR_keeps_lastEncoderVal a :
  a <> Loop -> lastEncoderVal (fst (step a st)) = lastEncoderVal st.
Proof.
  destruct st. destruct a; intros Ha; try congruence;
    cbn [step fst]; unfold ISR_Button, ISR_Encoder1, ISR_Encoder2;
    unfold_setters; if_cases; reflexivity.
Qed.

End Interrupts.

(** ** Executions and what every reachable state satisfies *)

Section Executions.

Lemma run_app acts1 : forall acts2 st,
  fst (run (acts1 ++ acts2) st) = fst (run acts2 (fst (run acts1 st))).
Proof.
  induction acts1 as [|a acts1 IH]; intros acts2 st.
  - reflexivity.
  - cbn [app run]. destruct (step a st) as [st1 out1].
    specialize (IH acts2 st1).
    destruct (run (acts1 ++ acts2) st1) as [st2 out2].
    destruct (run acts1 st1) as [st3 out3].
    cbn [fst] in *. exact IH.
Qed.

Lemma run_invariant (P : state -> Prop) :
  (forall a st, P st -> P (fst (step a st))) ->
  forall acts st, P st -> P (fst (run acts st)).
Proof.
  intros Hstep. induction acts as [|a acts IH]; intros st HP.
  - exact HP.
  - cbn [run]. pose proof (Hstep a st HP) as H1.
    destruct (step a st) as [st1 out1]. cbn [fst] in H1.
    specialize (IH st1 H1).
    destruct (run acts st1) as [st2 out2]. exact IH.
Qed.

Lemma reachable_initial : reachable initial.
Proof. exists []. reflexivity. Qed.

Lemma reachable_step a st : reachable st -> reachable (fst (step a st)).
Proof.
  intros [acts <-]. exists (acts ++ [a]).
  rewrite run_app. cbn [run].
  destruct (step a (fst (run acts initial))) as [st1 out1]. reflexivity.
Qed.

End Executions.

(** C3: a rising edge on channel A while the latch of channel B is false
    adds exactly the increment to the value and sets the latch of channel A;
    a rising edge on channel B while the latch of channel A is false
    subtracts exactly the increment and sets the latch of channel B; a
    falling edge on either channel clears the latch of that channel and
    leaves every other global, the value included, as it was.  The sums are
    taken to fit the 32-bit [long], beyond which C leaves the addition
    undefined. *)
Theorem encoder_direction (st : state)
  (Hup : in_long (encoderVal st + encoderInc st))
  (Hdown : in_long (encoderVal st - encoderInc st)) :
  (encoderLH2 st = false ->
   ISR_Encoder1 HIGH HIGH st =
     set_encoderVal (encoderVal st + encoderInc st) (set_encoderLH1 true st))
  /\ (encoderLH1 st = false ->
      ISR_Encoder2 HIGH HIGH st =
        set_encoderVal (encoderVal st - encoderInc st) (set_encoderLH2 true st))
  /\ ISR_Encoder1 LOW LOW st = set_encoderLH1 false st
  /\ ISR_Encoder2 LOW LOW st = set_encoderLH2 false st.
Proof.
  destruct st as [v i l1 l2 lv li].
  cbn [encoderVal encoderInc encoderLH1 encoderLH2] in *.
  unfold ISR_Encoder1, ISR_Encoder2.
  change (HIGH =? HIGH) with true. change (HIGH =? LOW) with false.
  change (LOW =? HIGH) with false. change (LOW =? LOW) with true.
  cbv iota. unfold_setters.
  split; [|split; [|split]].
  - intros ->. cbn [negb]. unfold_setters.
    rewrite wrap_long_id by exact Hup. reflexivity.
  - intros ->. cbn [negb]. unfold_setters.
    rewrite wrap_long_id by exact Hdown. reflexivity.
  - reflexivity.
  - reflexivity.
Qed.

Lemma encoder_direction_witness :
  in_long (encoderVal initial + encoderInc initial)
  /\ in_long (encoderVal initial - encoderInc initial)
  /\ ISR_Encoder1 HIGH HIGH initial = mkState 2000 1000 true false 1 0
  /\ ISR_Encoder2 HIGH HIGH initial = mkState 0 1000 false true 1 0
  /\ ISR_Encoder1 LOW LOW initial = initial
  /\ ISR_Encoder2 LOW LOW initial = initial.
Proof.
  assert (Hup : in_long (encoderVal initial + encoderInc initial))
    by (unfold in_long; cbn; lia).
  assert (Hdown : in_long (encoderVal initial - encoderInc initial))
    by (unfold in_long; cbn; lia).
  split; [exact Hup|]. split; [exact Hdown|].
  destruct (encoder_direction initial Hup Hdown) as [H1 [H2 [H3 H4]]].
  split; [rewrite (H1 eq_refl); reflexivity|].
  split; [rewrite (H2 eq_refl); reflexivity|].
  split; [rewrite H3; reflexivity | rewrite H4; reflexivity].
Defined.

(** ** The step size *)

Section StepSize.

Lemma press_then_observe_inc st :
  (encoderInc st = 1 -> lastEncoderInc st <> 0) ->
  decade (encoderInc st) ->
  encoderInc (press_then_observe st) = next_increment (encoderInc st).
Proof.
  intros Hstale Hdec. unfold press_then_observe, next_increment.
  rewrite loop_encoderInc.
  unfold ISR_Button. unfold_setters.
  destruct (negb (lastEncoderInc st =? Z.quot (encoderInc st) divInc))
    eqn:Hseen; cbn [andb]; [reflexivity|].
  zbool.
  destruct (Z.quot (encoderInc st) divInc <? minInc) eqn:Hsmall;
    [|reflexivity].
  exfalso. unfold decade in Hdec. cbn [In] in Hdec.
  destruct Hdec as [H|[H|[H|[H|[H|[H|[H|[]]]]]]]];
    rewrite <- H in Hsmall, Hseen; try discriminate Hsmall.
  apply Hstale; [symmetry; exact H | exact Hseen].
Qed.

Lemma press_then_observe_synced st :
  lastEncoderInc (press_then_observe st) =
  encoderInc (press_then_observe st).
Proof. apply loop_lastEncoderInc. Qed.

Lemma next_decade d : decade d -> decade (next_increment d).
Proof.
  unfold decade. cbn [In].
  intros [H|[H|[H|[H|[H|[H|[H|[]]]]]]]]; subst d; vm_compute; tauto.
Qed.

Lemma iter_press_then_observe k : forall st,
  (encoderInc st = 1 -> lastEncoderInc st <> 0) ->
  decade (encoderInc st) ->
  encoderInc (Nat.iter k press_then_observe st) =
  Nat.iter k next_increment (encoderInc st).
Proof.
  induction k as [|k IH]; intros st Hstale Hdec; [reflexivity|].
  rewrite !Nat.iter_succ_r.
  rewrite IH.
  - rewrite press_then_observe_inc by assumption. reflexivity.
  - rewrite press_then_observe_synced.
    intros H1 H0. rewrite H1 in H0. discriminate H0.
  - rewrite press_then_observe_inc by assumption.
    apply next_decade. exact Hdec.
Qed.

Lemma next_period d :
  decade d ->
  Nat.iter 7 next_increment d = d
  /\ forall k, (0 < k < 7)%nat -> Nat.iter k next_increment d <> d.
Proof.
  unfold decade. cbn [In].
  intros [H|[H|[H|[H|[H|[H|[H|[]]]]]]]]; subst d;
    (split; [reflexivity|]);
    intros k Hk;
    destruct k as [|[|[|[|[|[|[|k]]]]]]]; try lia;
    vm_compute; discriminate.
Qed.

End StepSize.

(** The cycle of step sizes where [loop] can notice the first press.  A
    button press divides the increment by 10; when the quotient is below
    [minInc] = 1 the next pass of [loop] sets the increment to [maxInc] =
    1,000,000; so from a decade value seven rounds of press-then-observe
    lead back to the starting value, and no smaller number of rounds does.
    The starting state is one whose snapshot of the increment is not 0 when
    the increment is 1 (a pass of [loop] leaves the snapshot equal to the
    increment). *)
Theorem step_size_cycle (st : state)
  (Hdec : decade (encoderInc st))
  (Hseen : encoderInc st = 1 -> lastEncoderInc st <> 0) :
  encoderInc (ISR_Button st) = Z.quot (encoderInc st) 10
  /\ encoderInc (press_then_observe st) =
       (if Z.quot (encoderInc st) 10 <? 1 then 1000000
        else Z.quot (encoderInc st) 10)
  /\ decade (encoderInc (press_then_observe st))
  /\ encoderInc (Nat.iter 7 press_then_observe st) = encoderInc st
  /\ forall k, (0 < k < 7)%nat ->
       encoderInc (Nat.iter k press_then_observe st) <> encoderInc st.
Proof.
  split; [reflexivity|].
  split; [rewrite press_then_observe_inc by assumption; reflexivity|].
  split.
  { rewrite press_then_observe_inc by assumption.
    apply next_decade. exact Hdec. }
  destruct (next_period (encoderInc st) Hdec) as [H7 Hk].
  split.
  - rewrite iter_press_then_observe by assumption. exact H7.
  - intros k Hlt. rewrite iter_press_then_observe by assumption.
    apply Hk. exact Hlt.
Qed.

(** From increment 1, observed by [loop]: the press gives 0, the pass of
    [loop] gives 1,000,000, and seven rounds give 1 again. *)
Lemma step_size_cycle_witness :
  let st := mkState 1000 1 false false 1000 1 in
  decade (encoderInc st)
  /\ (encoderInc st = 1 -> lastEncoderInc st <> 0)
  /\ encoderInc (ISR_Button st) = 0
  /\ encoderInc (press_then_observe st) = 1000000
  /\ encoderInc (Nat.iter 7 press_then_observe st) = 1.
Proof.
  intros st.
  assert (Hdec : decade (encoderInc st)) by (left; reflexivity).
  assert (Hseen : encoderInc st = 1 -> lastEncoderInc st <> 0)
    by (intros _; discriminate).
  split; [exact Hdec|]. split; [exact Hseen|].
  destruct (step_size_cycle st Hdec Hseen) as [H1 [H2 [_ [H7 _]]]].
  split; [exact H1|]. split; [exact H2 | exact H7].
Defined.

Lemma press_then_observe_stuck st :
  encoderInc st = 0 -> lastEncoderInc st = 0 ->
  encoderInc (press_then_observe st) = 0
  /\ lastEncoderInc (press_then_observe st) = 0.
Proof.
  intros Hi Hl. unfold press_then_observe.
  rewrite loop_lastEncoderInc, loop_encoderInc.
  unfold ISR_Button. unfold_setters. rewrite Hi, Hl.
  split; reflexivity.
Qed.

(** C4 at the decade value 1 reached by three button presses before the
    first pass of [loop]: the snapshot of the increment still holds its
    initialiser 0.  The next press leaves the increment at 0, the test of
    line 135 compares 0 with 0 and skips the wrap of line 136, and the
    increment is 0, not 1,000,000, after the round; it is 0, not 1, after
    seven rounds, and after any number of rounds. *)
Theorem step_size_stuck_after_early_presses :
  let st := fst (run [Button; Button; Button] initial) in
  reachable st
  /\ decade (encoderInc st)
  /\ (encoderInc st = 1 /\ lastEncoderInc st = 0)
  /\ encoderInc (ISR_Button st) = 0
  /\ encoderInc (press_then_observe st) = 0
  /\ encoderInc (Nat.iter 7 press_then_observe st) = 0
  /\ forall k : nat, (1 <= k)%nat ->
       encoderInc (Nat.iter k press_then_observe st) = 0.
Proof.
  intros st.
  split; [exists [Button; Button; Button]; reflexivity|].
  split; [left; reflexivity|].
  split; [split; reflexivity|].
  split; [reflexivity|].
  assert (Hall : forall k : nat,
             encoderInc (Nat.iter (S k) press_then_observe st) = 0
             /\ lastEncoderInc (Nat.iter (S k) press_then_observe st) = 0).
  { induction k as [|k [IH1 IH2]].
    - split; reflexivity.
    - rewrite Nat.iter_succ. apply press_then_observe_stuck; assumption. }
  split; [apply (Hall 0%nat)|].
  split; [apply (Hall 6%nat)|].
  intros k Hk. destruct k as [|k]; [lia|]. apply Hall.
Qed.

(** ** The window with increment 0 *)

Section ZeroIncrement.

Lemma encoder_edge_zero_inc a st :
  encoder_edge a = true ->
  encoderInc st = 0 -> in_long (encoderVal st) ->
  encoderVal (fst (step a st)) = encoderVal st
  /\ encoderInc (fst (step a st)) = 0
  /\ lastEncoderInc (fst (step a st)) = lastEncoderInc st.
Proof.
  destruct st as [v i l1 l2 lv li].
  cbn [encoderInc encoderVal lastEncoderInc].
  intros Ha -> Hv.
  destruct a; try discriminate Ha; cbn [step fst];
    unfold ISR_Encoder1, ISR_Encoder2; unfold_setters;
    rewrite ?Z.add_0_r, ?Z.sub_0_r, (wrap_long_id v Hv);
    if_cases; auto.
Qed.

Lemma encoder_edges_zero_inc edges : forall st,
  forallb encoder_edge edges = true ->
  encoderInc st = 0 -> in_long (encoderVal st) ->
  encoderVal (fst (run edges st)) = encoderVal st
  /\ encoderInc (fst (run edges st)) = 0
  /\ lastEncoderInc (fst (run edges st)) = lastEncoderInc st.
Proof.
  induction edges as [|a edges IH]; intros st Hall Hinc Hv.
  - auto.
  - cbn [forallb] in Hall. apply andb_true_iff in Hall.
    destruct Hall as [Ha Hall].
    destruct (encoder_edge_zero_inc a st Ha Hinc Hv) as [H1 [H2 H3]].
    cbn [run]. destruct (step a st) as [st1 out1]. cbn [fst] in *.
    assert (Hv1 : in_long (encoderVal st1)) by (rewrite H1; exact Hv).
    destruct (IH st1 Hall H2 Hv1) as [H4 [H5 H6]].
    destruct (run edges st1) as [st2 out2]. cbn [fst] in *.
    rewrite H4, H5, H6. auto.
Qed.

End ZeroIncrement.

(** C10: a button press at increment 1 leaves the increment at 0 (integer
    division); from then until [loop] looks, a rising edge on either encoder
    channel, whatever the latches, changes the value by 0, and so does any
    sequence of encoder interrupts; the next pass of [loop], whose snapshot
    is not 0, sets the increment to 1,000,000. *)
Theorem zero_increment_window (st : state)
  (Hinc : encoderInc st = 1)
  (Hval : in_long (encoderVal st)) :
  encoderInc (ISR_Button st) = 0
  /\ (forall rd2,
        encoderVal (ISR_Encoder1 HIGH rd2 (ISR_Button st)) = encoderVal st)
  /\ (forall rd2,
        encoderVal (ISR_Encoder2 HIGH rd2 (ISR_Button st)) = encoderVal st)
  /\ (forall edges, forallb encoder_edge edges = true ->
        encoderVal (fst (run edges (ISR_Button st))) = encoderVal st
        /\ encoderInc (fst (run edges (ISR_Button st))) = 0)
  /\ (lastEncoderInc st <> 0 ->
      forall edges, forallb encoder_edge edges = true ->
        encoderInc (fst (loop (fst (run edges (ISR_Button st))))) = maxInc).
Proof.
  assert (H0 : encoderInc (ISR_Button st) = 0).
  { unfold ISR_Button. unfold_setters. rewrite Hinc. reflexivity. }
  assert (Hv : encoderVal (ISR_Button st) = encoderVal st) by reflexivity.
  assert (Hl : lastEncoderInc (ISR_Button st) = lastEncoderInc st)
    by reflexivity.
  assert (Hfit : in_long (encoderVal (ISR_Button st)))
    by (rewrite Hv; exact Hval).
  split; [exact H0|].
  split.
  { intros rd2.
    destruct (encoder_edge_zero_inc (Encoder1 HIGH rd2) _ eq_refl H0 Hfit)
      as [H _].
    cbn [step fst] in H. rewrite H. exact Hv. }
  split.
  { intros rd2.
    destruct (encoder_edge_zero_inc (Encoder2 HIGH rd2) _ eq_refl H0 Hfit)
      as [H _].
    cbn [step fst] in H. rewrite H. exact Hv. }
  split.
  - intros edges Hall.
    destruct (encoder_edges_zero_inc edges _ Hall H0 Hfit) as [H1 [H2 _]].
    rewrite H1, H2, Hv. auto.
  - intros Hsnap edges Hall.
    destruct (encoder_edges_zero_inc edges _ Hall H0 Hfit) as [_ [H2 H3]].
    rewrite loop_encoderInc, H2, H3, Hl.
    destruct (lastEncoderInc st =? 0) eqn:E; zbool; [contradiction|].
    reflexivity.
Qed.

Lemma zero_increment_window_witness :
  let st := mkState 1000 1 false false 1000 1 in
  encoderInc st = 1
  /\ in_long (encoderVal st)
  /\ encoderInc (ISR_Button st) = 0
  /\ encoderVal (ISR_Encoder1 HIGH HIGH (ISR_Button st)) = 1000
  /\ encoderVal (ISR_Encoder2 HIGH HIGH (ISR_Button st)) = 1000.
Proof.
  intros st.
  assert (Hinc : encoderInc st = 1) by reflexivity.
  assert (Hval : in_long (encoderVal st)) by (unfold in_long; cbn; lia).
  split; [exact Hinc|]. split; [exact Hval|].
  destruct (zero_increment_window st Hinc Hval) as [H0 [H1 [H2 _]]].
  split; [exact H0|]. split; [apply H1 | apply H2].
Defined.

(** ** Start-up *)

(** C9: the writes of [setup] are, in this order and nothing else, a pulse
    on RESET, a pulse on W_CLK and a pulse on FQ_UD, each high then low;
    [setup] writes nothing to DATA, and whatever the schedule, every write
    of the program after these six comes from the passes of [loop]. *)
Theorem setup_pulse_sequence (acts : list action) :
  digital_writes setup =
    [ DigitalWrite RESET HIGH; DigitalWrite RESET LOW;
      DigitalWrite W_CLK HIGH; DigitalWrite W_CLK LOW;
      DigitalWrite FQ_UD HIGH; DigitalWrite FQ_UD LOW ]
  /\ count (writes_to DATA) setup = 0%nat
  /\ digital_writes (firmware acts) =
       [ DigitalWrite RESET HIGH; DigitalWrite RESET LOW;
         DigitalWrite W_CLK HIGH; DigitalWrite W_CLK LOW;
         DigitalWrite FQ_UD HIGH; DigitalWrite FQ_UD LOW ]
       ++ digital_writes (snd (run acts initial)).
Proof.
  split; [reflexivity|]. split; [reflexivity|].
  unfold firmware, digital_writes. rewrite filter_app. reflexivity.
Qed.

(** ** The tuning word at given frequencies *)

(** C7, as the program behaves: from value 1000 and increment 1000, a
    clockwise detent gives 2000, a button press seen by [loop] gives
    increment 100, a further clockwise detent gives 2100, and the tuning
    word of 2100 is 72155, which is also floor(2100 * 2^32 / 125000000).
    This holds for the detent as the single rising edge of channel A and as
    the full cycle of four edges. *)
Theorem end_to_end_scenario :
  scenario [Encoder1 HIGH HIGH] = (2000, 100, 2100, 72155)
  /\ scenario cw_detent = (2000, 100, 2100, 72155)
  /\ 2100 * 2 ^ 32 / 125000000 = 72155.
Proof. split; [|split]; vm_compute; reflexivity. Qed.

(** C7 as stated fails: the tuning word of the scenario is not 72. *)
Lemma end_to_end_scenario_not_72 :
  scenario [Encoder1 HIGH HIGH] <> (2000, 100, 2100, 72)
  /\ scenario cw_detent <> (2000, 100, 2100, 72).
Proof. split; vm_compute; discriminate. Qed.

(** C1 at 1,953,125 Hz: the product by 4294967295 and the quotient by
    125000000 are exact in [double], 67108863.984375, so the word sent is
    67108863, one less than floor(f * 2^32 / 125000000) = 67108864; the
    bytes on the wire are those of 67108863. *)
Theorem tuning_word_at_1953125 :
  minVal <= 1953125 <= maxVal
  /\ tuning_word (Double.of_Z 1953125) = 67108863
  /\ 1953125 * 2 ^ 32 / 125000000 = 67108864
  /\ 1953125 * 4294967295 / 125000000 = 67108863
  /\ received_bytes (sendFrequency (Double.of_Z 1953125)) = [255; 255; 255; 3; 0].
Proof.
  split; [unfold minVal, maxVal; lia|].
  repeat (split; [vm_compute; reflexivity|]).
  vm_compute; reflexivity.
Qed.

(** C8 at 31,971,564 Hz: the word sent is 1098534573, which decodes to
    about 31971563.96345 Hz; the distance to the frequency, about 0.0365
    Hz, is more than one tuning-word step 125000000 / 2^32. *)
Theorem round_trip_at_31971564 :
  minVal <= 31971564 <= maxVal
  /\ tuning_word (Double.of_Z 31971564) = 1098534573
  /\ (quantization_step <
      Qabs (decode (tuning_word (Double.of_Z 31971564)) - inject_Z 31971564))%Q
  /\ 31971564 * 2 ^ 32 / 125000000 = 1098534574.
Proof.
  split; [unfold minVal, maxVal; lia|].
  split; [vm_compute; reflexivity|].
  split; [|vm_compute; reflexivity].
  replace (tuning_word (Double.of_Z 31971564)) with 1098534573
    by (vm_compute; reflexivity).
  vm_compute. reflexivity.
Qed.

(** * Further properties of the sketch *)

(** ** Whole detents and contact bounce *)

Section Detents.

Ltac run_edges :=
  cbv [run step cw_detent ccw_detent fst snd app
       ISR_Encoder1 ISR_Encoder2];
  change (HIGH =? HIGH) with true; change (HIGH =? LOW) with false;
  change (LOW =? HIGH) with false; change (LOW =? LOW) with true;
  do 4 (cbv beta iota zeta; unfold_setters; cbn [negb]).

Lemma run_cw_detent st :
  encoderLH1 st = false -> encoderLH2 st = false ->
  in_long (encoderVal st + encoderInc st) ->
  run cw_detent st = (set_encoderVal (encoderVal st + encoderInc st) st, []).
Proof.
  destruct st as [v i l1 l2 lv li].
  cbn [encoderVal encoderInc encoderLH1 encoderLH2].
  intros -> -> Hfit. run_edges.
  rewrite wrap_long_id by exact Hfit. reflexivity.
Qed.

Lemma run_ccw_detent st :
  encoderLH1 st = false -> encoderLH2 st = false ->
  in_long (encoderVal st - encoderInc st) ->
  run ccw_detent st = (set_encoderVal (encoderVal st - encoderInc st) st, []).
Proof.
  destruct st as [v i l1 l2 lv li].
  cbn [encoderVal encoderInc encoderLH1 encoderLH2].
  intros -> -> Hfit. run_edges.
  rewrite wrap_long_id by exact Hfit. reflexivity.
Qed.

Lemma run_app_out acts1 : forall acts2 st,
  snd (run (acts1 ++ acts2) st) =
  snd (run acts1 st) ++ snd (run acts2 (fst (run acts1 st))).
Proof.
  induction acts1 as [|a acts1 IH]; intros acts2 st.
  - reflexivity.
  - cbn [app run]. destruct (step a st) as [st1 out1].
    specialize (IH acts2 st1).
    destruct (run (acts1 ++ acts2) st1) as [st2 out2].
    destruct (run acts1 st1) as [st3 out3].
    cbn [fst snd] in *. rewrite IH, app_assoc. reflexivity.
Qed.

Lemma run_bounce_A n : forall st,
  encoderLH2 st = false -> 0 <= encoderInc st ->
  in_long (encoderVal st) ->
  in_long (encoderVal st + Z.of_nat n * encoderInc st) ->
  encoderVal (fst (run (bounce_A n) st)) =
    encoderVal st + Z.of_nat n * encoderInc st
  /\ encoderInc (fst (run (bounce_A n) st)) = encoderInc st
  /\ encoderLH2 (fst (run (bounce_A n) st)) = false.
Proof.
  induction n as [|n IH]; intros st HB Hinc Hv Hfit.
  - cbn [bounce_A run fst]. repeat split; try assumption. lia.
  - destruct st as [v i l1 l2 lv li].
    cbn [encoderVal encoderInc encoderLH2] in *. subst l2.
    assert (Hone : in_long (v + i)) by (unfold in_long in *; nia).
    cbn [bounce_A run].
    cbv [step ISR_Encoder1].
    change (HIGH =? HIGH) with true; change (HIGH =? LOW) with false;
    change (LOW =? HIGH) with false; change (LOW =? LOW) with true.
    cbv iota. unfold_setters. cbn [negb]. unfold_setters.
    rewrite wrap_long_id by exact Hone.
    specialize (IH (mkState (v + i) i false false lv li)).
    cbn [encoderVal encoderInc encoderLH2] in IH.
    destruct (run (bounce_A n) (mkState (v + i) i false false lv li))
      as [st2 out2].
    cbn [fst] in *.
    destruct IH as [H1 [H2 H3]]; try assumption; try reflexivity.
    + replace (v + i + Z.of_nat n * i) with (v + Z.of_nat (S n) * i) by lia.
      exact Hfit.
    + rewrite H1, H2, H3. repeat split. lia.
Qed.

End Detents.

(** X1: with both latches clear, the four edges of a clockwise detent add
    exactly one increment to the value, those of a counter-clockwise detent
    subtract exactly one, and either way every other global, the latches
    included, is back where it was and nothing is written to any pin. *)
Theorem whole_detent_moves_one_increment (st : state)
  (HA : encoderLH1 st = false) (HB : encoderLH2 st = false)
  (Hup : in_long (encoderVal st + encoderInc st))
  (Hdown : in_long (encoderVal st - encoderInc st)) :
  run cw_detent st = (set_encoderVal (encoderVal st + encoderInc st) st, [])
  /\ run ccw_detent st =
       (set_encoderVal (encoderVal st - encoderInc st) st, []).
Proof.
  split; [apply run_cw_detent | apply run_ccw_detent]; assumption.
Qed.

Lemma whole_detent_moves_one_increment_witness :
  encoderLH1 initial = false /\ encoderLH2 initial = false
  /\ in_long (encoderVal initial + encoderInc initial)
  /\ in_long (encoderVal initial - encoderInc initial)
  /\ run cw_detent initial = (mkState 2000 1000 false false 1 0, [])
  /\ run ccw_detent initial = (mkState 0 1000 false false 1 0, []).
Proof.
  assert (Hup : in_long (encoderVal initial + encoderInc initial))
    by (unfold in_long; vm_compute; split; [discriminate | reflexivity]).
  assert (Hdown : in_long (encoderVal initial - encoderInc initial))
    by (unfold in_long; vm_compute; split; [discriminate | reflexivity]).
  split; [reflexivity|]. split; [reflexivity|].
  split; [exact Hup|]. split; [exact Hdown|].
  destruct (whole_detent_moves_one_increment initial eq_refl eq_refl Hup Hdown)
    as [H1 H2].
  split; [rewrite H1 | rewrite H2]; reflexivity.
Defined.

(** X2: a clockwise detent followed by a counter-clockwise one, or the
    other way round, gives back the globals exactly. *)
Theorem opposite_detents_cancel (st : state)
  (HA : encoderLH1 st = false) (HB : encoderLH2 st = false)
  (Hval : in_long (encoderVal st))
  (Hup : in_long (encoderVal st + encoderInc st))
  (Hdown : in_long (encoderVal st - encoderInc st)) :
  fst (run (cw_detent ++ ccw_detent) st) = st
  /\ fst (run (ccw_detent ++ cw_detent) st) = st.
Proof.
  rewrite !run_app.
  rewrite (run_cw_detent st), (run_ccw_detent st) by assumption.
  cbn [fst].
  destruct st as [v i l1 l2 lv li].
  cbn [encoderVal encoderInc encoderLH1 encoderLH2] in *.
  split.
  - rewrite run_ccw_detent; unfold_setters; try assumption.
    + cbn [fst]. f_equal. lia.
    + replace (v + i - i) with v by lia. exact Hval.
  - rewrite run_cw_detent; unfold_setters; try assumption.
    + cbn [fst]. f_equal. lia.
    + replace (v - i + i) with v by lia. exact Hval.
Qed.

Lemma opposite_detents_cancel_witness :
  encoderLH1 initial = false /\ encoderLH2 initial = false
  /\ in_long (encoderVal initial)
  /\ in_long (encoderVal initial + encoderInc initial)
  /\ in_long (encoderVal initial - encoderInc initial)
  /\ fst (run (cw_detent ++ ccw_detent) initial) = initial.
Proof.
  assert (Hval : in_long (encoderVal initial)) by (unfold in_long; vm_compute; split; [discriminate | reflexivity]).
  assert (Hup : in_long (encoderVal initial + encoderInc initial))
    by (unfold in_long; vm_compute; split; [discriminate | reflexivity]).
  assert (Hdown : in_long (encoderVal initial - encoderInc initial))
    by (unfold in_long; vm_compute; split; [discriminate | reflexivity]).
  split; [reflexivity|]. split; [reflexivity|].
  split; [exact Hval|]. split; [exact Hup|]. split; [exact Hdown|].
  exact (proj1 (opposite_detents_cancel initial eq_refl eq_refl
                  Hval Hup Hdown)).
Defined.

(** X3: the routines do not debounce.  While the latch of channel B is
    clear, [n] rise-and-fall pairs on channel A add [n] increments to the
    value, although the knob has not completed a single detent. *)
Theorem bounce_on_A_counts_every_rise (n : nat) (st : state)
  (HB : encoderLH2 st = false)
  (Hinc : 0 <= encoderInc st)
  (Hval : in_long (encoderVal st))
  (Hfit : in_long (encoderVal st + Z.of_nat n * encoderInc st)) :
  encoderVal (fst (run (bounce_A n) st)) =
    encoderVal st + Z.of_nat n * encoderInc st.
Proof. apply run_bounce_A; assumption. Qed.

Lemma bounce_on_A_counts_every_rise_witness :
  encoderLH2 initial = false
  /\ 0 <= encoderInc initial
  /\ in_long (encoderVal initial)
  /\ in_long (encoderVal initial + Z.of_nat 3 * encoderInc initial)
  /\ encoderVal (fst (run (bounce_A 3) initial)) = 4000.
Proof.
  assert (Hinc : 0 <= encoderInc initial) by (vm_compute; discriminate).
  assert (Hval : in_long (encoderVal initial)) by (unfold in_long; vm_compute; split; [discriminate | reflexivity]).
  assert (Hfit : in_long (encoderVal initial + Z.of_nat 3 * encoderInc initial))
    by (unfold in_long; vm_compute; split; [discriminate | reflexivity]).
  split; [reflexivity|]. split; [exact Hinc|].
  split; [exact Hval|]. split; [exact Hfit|].
  rewrite (bounce_on_A_counts_every_rise 3 initial eq_refl Hinc Hval Hfit).
  reflexivity.
Defined.

(** ** What a pass of [loop] sends *)

Section LoopOutput.





Lemma digital_writes_cells bits :
  digital_writes (flat_map bit_cell bits) = flat_map bit_cell bits.
Proof.
  induction bits as [|b bs IH]; [reflexivity|].
  cbn [flat_map]. unfold digital_writes in *.
  rewrite filter_app, IH. reflexivity.
Qed.

Lemma digital_writes_frame w :
  digital_writes (sendFrequency_word w) = sendFrequency_word w.
Proof.
  rewrite sendFrequency_word_cells. unfold digital_writes.
  rewrite filter_app. fold (digital_writes (flat_map bit_cell (frame_bits w))).
  rewrite digital_writes_cells. reflexivity.
Qed.


Lemma received_frame w tail :
  (forall e, In e tail -> match e with DigitalWrite _ _ => False | _ => True end) ->
  received_bytes (sendFrequency_word w ++ tail) = frame_bytes w.
Proof.
  intros Htail. unfold received_bytes.
  rewrite sendFrequency_word_cells, <- app_assoc.
  destruct (sample_cells (frame_bits w) LOW (pulseHigh FQ_UD ++ tail))
    as [d ->].
  assert (Hs : forall d c, sample d c tail = []).
  { induction tail as [|e tail IH]; intros d' c; [reflexivity|].
    assert (He := Htail e (or_introl eq_refl)).
    destruct e; try contradiction; cbn [sample]; apply IH;
      intros e' He'; apply Htail; right; exact He'. }
  cbn [pulseHigh app sample].
  change (FQ_UD =? DATA) with false. change (FQ_UD =? W_CLK) with false.
  cbv iota. rewrite Hs, app_nil_r.
  apply bytes_of_byte_bits, frame_bytes_in_byte.
Qed.

End LoopOutput.


(** ** Interrupts during a pass of [loop] *)

Section Preemption.

(** With no interrupt served the pass is [loop]. *)
Lemma loop_preempted_quiet st : loop_preempted quiet st = loop st.
Proof. reflexivity. Qed.

Lemma set_encoderInc_twice a b st :
  set_encoderInc a (set_encoderInc b st) = set_encoderInc a st.
Proof. reflexivity. Qed.

(** Button interrupts change the increment and nothing else. *)
Lemma serve_buttons l : forall st,
  forallb is_button l = true ->
  exists inc, serve l st = set_encoderInc inc st.
Proof.
  induction l as [|i l IH]; intros st Hl.
  - exists (encoderInc st). destruct st. reflexivity.
  - cbn [forallb] in Hl. apply andb_true_iff in Hl. destruct Hl as [Hi Hl].
    destruct i; try discriminate Hi.
    cbn [serve fold_left isr]. fold (serve l (ISR_Button st)).
    destruct (IH (ISR_Button st) Hl) as [inc ->].
    exists inc. unfold ISR_Button. apply set_encoderInc_twice.
Qed.

(** No interrupt touches the snapshots of [loop]. *)
Lemma serve_snapshots l : forall st,
  lastEncoderVal (serve l st) = lastEncoderVal st
  /\ lastEncoderInc (serve l st) = lastEncoderInc st.
Proof.
  induction l as [|i l IH]; intros st; [auto|].
  cbn [serve fold_left]. fold (serve l (isr i st)).
  destruct (IH (isr i st)) as [-> ->].
  destruct st; destruct i; cbn [isr];
    unfold ISR_Button, ISR_Encoder1, ISR_Encoder2; unfold_setters;
    if_cases; auto.
Qed.

Ltac buttons_only Hq :=
  repeat match goal with
    | |- context [serve (?irqs ?k) ?s] =>
        let inc := fresh "inc" in
        let H := fresh "H" in
        destruct (serve_buttons (irqs k) s (Hq k ltac:(lia))) as [inc H];
        rewrite H; clear H
    end.

Ltac fields :=
  cbv beta iota zeta delta
    [set_encoderVal set_encoderInc set_encoderLH1 set_encoderLH2
     set_lastEncoderVal set_lastEncoderInc
     encoderVal encoderInc encoderLH1 encoderLH2
     lastEncoderVal lastEncoderInc fst snd].

Ltac pass_cases Hq :=
  fields; buttons_only Hq; fields;
  repeat (match goal with
          | |- context [if ?c then _ else _] =>
              lazymatch c with
              | context [if _ then _ else _] => fail
              | _ => let E := fresh "E" in destruct c eqn:E
              end
          end;
          fields; buttons_only Hq; fields).

Lemma loop_preempted_halves (irqs : schedule) (st : state) :
  loop_preempted irqs st =
  (let '(s1, out1) := pass_value irqs (serve (irqs 1%nat) st) in
   let '(s2, out2) := pass_increment irqs (serve (irqs 9%nat) s1) in
   (s2, out1 ++ out2)).
Proof. reflexivity. Qed.

(** The second half with button interrupts only: the value and its
    snapshot are left alone and at most the increment is printed. *)
Lemma pass_increment_buttons (irqs : schedule) (st : state) :
  (forall k, (2 <= k)%nat -> forallb is_button (irqs k) = true) ->
  encoderVal (fst (pass_increment irqs st)) = encoderVal st
  /\ lastEncoderVal (fst (pass_increment irqs st)) = lastEncoderVal st
  /\ (snd (pass_increment irqs st) = []
      \/ exists i, snd (pass_increment irqs st) = [SerialIncrement i]).
Proof.
  intros Hq. unfold pass_increment, printInc.
  destruct st as [v i l1 l2 lv li].
  pass_cases Hq; eauto.
Qed.

(** The first half with button interrupts only. *)
Lemma pass_value_buttons (irqs : schedule) (st : state) :
  (forall k, (2 <= k)%nat -> forallb is_button (irqs k) = true) ->
  (lastEncoderVal st = encoderVal st -> pass_value irqs st = (st, []))
  /\ (lastEncoderVal st <> encoderVal st ->
      encoderVal (fst (pass_value irqs st)) = clamp (encoderVal st)
      /\ lastEncoderVal (fst (pass_value irqs st)) = clamp (encoderVal st)
      /\ snd (pass_value irqs st) =
           sendFrequency (Double.of_Z (clamp (encoderVal st)))
             ++ [SerialFrequency (clamp (encoderVal st))]).
Proof.
  intros Hq. unfold pass_value, printFreq.
  destruct st as [v i l1 l2 lv li].
  cbn [lastEncoderVal encoderVal].
  split; intros Hv.
  - subst lv. rewrite Z.eqb_refl. reflexivity.
  - apply Z.eqb_neq in Hv. rewrite Hv. cbn [negb].
    remember (clamp v) as c eqn:Hc.
    pass_cases Hq;
      match goal with
      | |- ?x = c /\ _ =>
          assert (Hx : c = x)
            by (subst c; unfold clamp, minVal, maxVal in *; zbool; lia)
      end;
      clear Hc; subst c; auto.
Qed.

(** A pass in which only button interrupts are served after the first read
    of the value. *)
Lemma loop_preempted_value (irqs : schedule) (st : state) :
  (forall k, (2 <= k)%nat -> forallb is_button (irqs k) = true) ->
  let v := encoderVal (serve (irqs 1%nat) st) in
  (lastEncoderVal st = v ->
   encoderVal (fst (loop_preempted irqs st)) = v
   /\ lastEncoderVal (fst (loop_preempted irqs st)) = v
   /\ (snd (loop_preempted irqs st) = []
       \/ exists i, snd (loop_preempted irqs st) = [SerialIncrement i]))
  /\ (lastEncoderVal st <> v ->
      encoderVal (fst (loop_preempted irqs st)) = clamp v
      /\ lastEncoderVal (fst (loop_preempted irqs st)) = clamp v
      /\ exists tail,
           snd (loop_preempted irqs st) =
             sendFrequency (Double.of_Z (clamp v))
               ++ SerialFrequency (clamp v) :: tail
           /\ (tail = [] \/ exists i, tail = [SerialIncrement i])).
Proof.
  intros Hq v. subst v.
  destruct (serve_snapshots (irqs 1%nat) st) as [Hsnap _].
  rewrite <- Hsnap. clear Hsnap.
  rewrite loop_preempted_halves.
  set (s1 := serve (irqs 1%nat) st). clearbody s1. clear st.
  destruct (pass_value_buttons irqs s1 Hq) as [Hsame Hdiff].
  assert (Hsecond : forall s,
    encoderVal (fst (pass_increment irqs (serve (irqs 9%nat) s)))
      = encoderVal s
    /\ lastEncoderVal (fst (pass_increment irqs (serve (irqs 9%nat) s)))
      = lastEncoderVal s
    /\ (snd (pass_increment irqs (serve (irqs 9%nat) s)) = []
        \/ exists i, snd (pass_increment irqs (serve (irqs 9%nat) s))
                     = [SerialIncrement i])).
  { intros s.
    destruct (pass_increment_buttons irqs (serve (irqs 9%nat) s) Hq)
      as [-> [-> Hout]].
    destruct (serve_buttons (irqs 9%nat) s (Hq 9%nat ltac:(lia)))
      as [inc Hs].
    rewrite Hs in *. destruct s. auto. }
  split; intros Hv.
  - rewrite (Hsame Hv).
    destruct (Hsecond s1) as [H1 [H2 H3]].
    destruct (pass_increment irqs (serve (irqs 9%nat) s1)) as [s2 out2].
    cbn [fst snd app] in *. rewrite H1, H2. auto.
  - destruct (Hdiff Hv) as [H1 [H2 H3]].
    destruct (pass_value irqs s1) as [s1' out1]. cbn [fst snd] in *.
    destruct (Hsecond s1') as [H4 [H5 H6]].
    destruct (pass_increment irqs (serve (irqs 9%nat) s1')) as [s2 out2].
    cbn [fst snd] in *. rewrite H4, H5, H1, H2, H3.
    split; [reflexivity|]. split; [reflexivity|].
    exists out2. rewrite <- app_assoc. auto.
Qed.

End Preemption.




(** X5: a pass of [loop] during which no encoder interrupt is served once
    it has read the value on line 127 (button interrupts may be served
    anywhere) writes to the AD9850 exactly when the value it reads differs
    from its snapshot.  If it does not differ, no pin is written and the
    value is left alone.  If it differs, the pins carry exactly one frame,
    that of the value brought into [minVal, maxVal], which is also the value
    the global holds afterwards; the receiver gets the five bytes of that
    value's tuning word. *)
Theorem observation_sends_clamped_frame (irqs : schedule) (st : state)
  (Hquiet : forall k, (2 <= k)%nat -> forallb is_button (irqs k) = true) :
  let v := encoderVal (serve (irqs 1%nat) st) in
  let pass := loop_preempted irqs st in
  (lastEncoderVal st = v ->
   digital_writes (snd pass) = [] /\ encoderVal (fst pass) = v)
  /\ (lastEncoderVal st <> v ->
      encoderVal (fst pass) = Z.max minVal (Z.min maxVal v)
      /\ digital_writes (snd pass) =
           sendFrequency (Double.of_Z (encoderVal (fst pass)))
      /\ received_bytes (snd pass) =
           frame_bytes (tuning_word (Double.of_Z (encoderVal (fst pass))))).
Proof.
  intros v pass.
  destruct (loop_preempted_value irqs st Hquiet) as [Hsame Hdiff].
  fold v in Hsame, Hdiff. fold pass in Hsame, Hdiff.
  split.
  - intros Heq. destruct (Hsame Heq) as [Hv [_ [-> | [i ->]]]];
      split; auto.
  - intros Hne. destruct (Hdiff Hne) as [Hv [_ [tail [Hout Htail]]]].
    rewrite Hv, Hout. split; [reflexivity|].
    unfold sendFrequency. split.
    + unfold digital_writes. rewrite filter_app.
      fold (digital_writes
              (sendFrequency_word (tuning_word (Double.of_Z (clamp v))))).
      rewrite digital_writes_frame.
      destruct Htail as [-> | [i ->]]; cbn [filter]; apply app_nil_r.
    + apply received_frame. intros e [<- | He]; [exact I|].
      destruct Htail as [-> | [i ->]]; [destruct He|].
      destruct He as [<- | []]. exact I.
Qed.

(** From the initial globals, with a counter-clockwise edge before the
    first pass reads the value: the pass sends the frame of 0 Hz. *)
Lemma observation_sends_clamped_frame_witness :
  (forall k, (2 <= k)%nat -> forallb is_button (edge_before_pass k) = true)
  /\ lastEncoderVal initial
     <> encoderVal (serve (edge_before_pass 1%nat) initial)
  /\ encoderVal (fst (loop_preempted edge_before_pass initial)) = 0
  /\ digital_writes (snd (loop_preempted edge_before_pass initial)) =
       sendFrequency
         (Double.of_Z
            (encoderVal (fst (loop_preempted edge_before_pass initial)))).
Proof.
  assert (Hquiet : forall k, (2 <= k)%nat ->
                     forallb is_button (edge_before_pass k) = true).
  { intros k Hk. destruct k as [|[|k]]; [lia | lia |].
    do 12 (destruct k as [|k]; [reflexivity|]). reflexivity. }
  assert (Hobs : lastEncoderVal initial
                 <> encoderVal (serve (edge_before_pass 1%nat) initial))
    by (vm_compute; discriminate).
  split; [exact Hquiet|]. split; [exact Hobs|].
  destruct (observation_sends_clamped_frame edge_before_pass initial Hquiet)
    as [_ Hdiff].
  destruct (Hdiff Hobs) as [Hv [Hw _]].
  split; [rewrite Hv; vm_compute; reflexivity | exact Hw].
Defined.

(** ** Whole executions *)

Section Schedules.




Lemma zero_or_decade_quot d :
  zero_or_decade d -> zero_or_decade (Z.quot d divInc).
Proof.
  unfold zero_or_decade, decade. cbn [In].
  intros [H|[H|[H|[H|[H|[H|[H|[H|[]]]]]]]]]; subst d; vm_compute; tauto.
Qed.

Lemma step_zero_or_decade a st :
  zero_or_decade (encoderInc st) ->
  zero_or_decade (encoderInc (fst (step a st))).
Proof.
  intros H. destruct a; cbn [step fst].
  - apply zero_or_decade_quot. exact H.
  - destruct st. unfold ISR_Encoder1. unfold_setters. if_cases; exact H.
  - destruct st. unfold ISR_Encoder2. unfold_setters. if_cases; exact H.
  - rewrite loop_encoderInc.
    destruct (negb (lastEncoderInc st =? encoderInc st)
              && (encoderInc st <? minInc)); [|exact H].
    right. unfold decade, maxInc. cbn [In]. tauto.
Qed.

Lemma zero_or_decade_bounds d : zero_or_decade d -> 0 <= d <= maxInc.
Proof.
  unfold zero_or_decade, decade, maxInc. cbn [In].
  intros [H|[H|[H|[H|[H|[H|[H|[H|[]]]]]]]]]; subst d; lia.
Qed.

(** The dead state: increment and snapshot both 0, value legal. *)
Lemma step_dead a st v :
  encoderInc st = 0 /\ lastEncoderInc st = 0
  /\ encoderVal st = v /\ minVal <= v <= maxVal ->
  encoderInc (fst (step a st)) = 0 /\ lastEncoderInc (fst (step a st)) = 0
  /\ encoderVal (fst (step a st)) = v /\ minVal <= v <= maxVal.
Proof.
  intros [Hi [Hli [Hv Hlegal]]].
  assert (Hfit : in_long v) by (unfold in_long, minVal, maxVal in *; lia).
  destruct a; cbn [step fst].
  - destruct st. unfold ISR_Button. unfold_setters. subst. auto.
  - destruct st. unfold ISR_Encoder1. unfold_setters. subst.
    rewrite Z.add_0_r, (wrap_long_id _ Hfit). if_cases; auto.
  - destruct st. unfold ISR_Encoder2. unfold_setters. subst.
    rewrite Z.sub_0_r, (wrap_long_id _ Hfit). if_cases; auto.
  - rewrite loop_lastEncoderInc, loop_encoderInc, Hi, Hli.
    rewrite loop_keeps_legal by (rewrite Hv; exact Hlegal).
    cbn [Z.eqb negb andb]. auto.
Qed.

Lemma run_presses n : forall st,
  fst (run (repeat Button n) st) =
  set_encoderInc (Z.quot (encoderInc st) (10 ^ Z.of_nat n)) st.
Proof.
  induction n as [|n IH]; intros st.
  - cbn [repeat run fst]. change (10 ^ Z.of_nat 0) with 1.
    rewrite Z.quot_1_r. destruct st. reflexivity.
  - cbn [repeat run step].
    specialize (IH (ISR_Button st)).
    destruct (run (repeat Button n) (ISR_Button st)) as [st2 out2].
    cbn [fst] in *. rewrite IH.
    unfold ISR_Button, divInc. unfold_setters. f_equal.
    rewrite Z.quot_quot by (try lia; apply Z.pow_nonzero; lia).
    f_equal. rewrite Nat2Z.inj_succ, Z.pow_succ_r by lia. reflexivity.
Qed.

End Schedules.


(** X7: in every reachable state the increment is 0 or one of the seven
    decade values, so it always lies between 0 and [maxInc]. *)
Theorem increment_is_zero_or_decade (st : state) (Hreach : reachable st) :
  zero_or_decade (encoderInc st) /\ 0 <= encoderInc st <= maxInc.
Proof.
  assert (H : zero_or_decade (encoderInc st)).
  { destruct Hreach as [acts <-].
    apply (run_invariant (fun s => zero_or_decade (encoderInc s))).
    - intros a s. apply step_zero_or_decade.
    - right. unfold decade. cbn. tauto. }
  split; [exact H | apply zero_or_decade_bounds; exact H].
Qed.

Lemma increment_is_zero_or_decade_witness :
  let st := fst (run [Button; Loop; Button; Button; Button; Encoder1 HIGH HIGH]
                     initial) in
  reachable st /\ encoderInc st = 0 /\ 0 <= encoderInc st <= maxInc.
Proof.
  intros st.
  assert (Hreach : reachable st) by (eexists; reflexivity).
  split; [exact Hreach|]. split; [reflexivity|].
  exact (proj2 (increment_is_zero_or_decade st Hreach)).
Defined.

(** X8: a state with increment 0, increment snapshot 0 and a legal value is
    a dead end: [loop] compares 0 with 0 and never restores the increment,
    so whatever interrupts and passes of [loop] follow, the increment stays
    0 and the value never changes again.  Four button presses before the
    first pass of [loop] lead from the initial globals into such a state. *)
Theorem zero_increment_with_zero_snapshot_is_final
  (st : state) (acts : list action)
  (Hinc : encoderInc st = 0)
  (Hsnap : lastEncoderInc st = 0)
  (Hval : minVal <= encoderVal st <= maxVal) :
  encoderInc (fst (run acts st)) = 0
  /\ encoderVal (fst (run acts st)) = encoderVal st.
Proof.
  pose (P := fun s : state =>
    encoderInc s = 0 /\ lastEncoderInc s = 0
    /\ encoderVal s = encoderVal st
    /\ minVal <= encoderVal st <= maxVal).
  assert (H : P (fst (run acts st))).
  { apply (run_invariant P).
    - intros a s Hs. apply step_dead. exact Hs.
    - unfold P. auto. }
  destruct H as [H1 [_ [H3 _]]]. auto.
Qed.

Lemma zero_increment_with_zero_snapshot_is_final_witness :
  let st := fst (run [Button; Button; Button; Button] initial) in
  reachable st
  /\ encoderInc st = 0 /\ lastEncoderInc st = 0
  /\ minVal <= encoderVal st <= maxVal
  /\ encoderInc (fst (run [Loop; Button; Encoder1 HIGH HIGH; Loop] st)) = 0
  /\ encoderVal (fst (run [Loop; Button; Encoder1 HIGH HIGH; Loop] st)) = 1000.
Proof.
  intros st.
  assert (Hval : minVal <= encoderVal st <= maxVal)
    by (vm_compute; split; discriminate).
  split; [eexists; reflexivity|].
  split; [reflexivity|]. split; [reflexivity|].
  split; [exact Hval|].
  exact (zero_increment_with_zero_snapshot_is_final st
           [Loop; Button; Encoder1 HIGH HIGH; Loop] eq_refl eq_refl Hval).
Defined.

(** X9: [tfr_byte] sends the low eight bits of its argument, whatever the
    argument: the receiver, taking DATA at each rising edge of W_CLK, gets
    the single byte [data mod 256], from eight clock pulses. *)
Theorem tfr_byte_round_trip (data : Z) :
  received_bytes (tfr_byte data) = [data mod 256]
  /\ count (is_write W_CLK HIGH) (tfr_byte data) = 8%nat
  /\ tfr_byte data = tfr_byte (data mod 256).
Proof.
  assert (Hb : in_byte (to_byte data)).
  { unfold in_byte, to_byte. apply Z.mod_pos_bound. lia. }
  assert (Heq : tfr_byte data = flat_map bit_cell (byte_bits (to_byte data))).
  { rewrite <- (tfr_byte_cells _ Hb). unfold tfr_byte.
    rewrite (to_byte_id _ Hb). reflexivity. }
  split; [|split].
  - unfold received_bytes. rewrite Heq.
    rewrite <- (app_nil_r (flat_map bit_cell _)).
    destruct (sample_cells (byte_bits (to_byte data)) LOW []) as [d ->].
    cbn [sample]. rewrite byte_bits_value by exact Hb. reflexivity.
  - rewrite Heq, count_cells_clk by auto. reflexivity.
  - unfold tfr_byte. fold (to_byte data). rewrite (to_byte_id _ Hb).
    reflexivity.
Qed.

(** X13: button presses between two passes of [loop] are not counted one by
    one.  [n] presses divide the increment by 10^n; if that leaves at least
    1 the next pass keeps it, and if it leaves 0 the next pass, whose
    snapshot is not 0, sets [maxInc], skipping the steps in between. *)
Theorem presses_between_passes_compose (n : nat) (st : state) :
  encoderInc (fst (run (repeat Button n) st)) =
    Z.quot (encoderInc st) (10 ^ Z.of_nat n)
  /\ (10 ^ Z.of_nat n <= encoderInc st ->
      encoderInc (fst (run (repeat Button n ++ [Loop]) st)) =
        Z.quot (encoderInc st) (10 ^ Z.of_nat n))
  /\ (0 <= encoderInc st < 10 ^ Z.of_nat n ->
      lastEncoderInc st <> 0 ->
      encoderInc (fst (run (repeat Button n ++ [Loop]) st)) = maxInc).
Proof.
  assert (Hpos : 0 < 10 ^ Z.of_nat n) by (apply Z.pow_pos_nonneg; lia).
  assert (Hloop : encoderInc (fst (run (repeat Button n ++ [Loop]) st)) =
                  encoderInc (fst (loop (fst (run (repeat Button n) st))))).
  { rewrite run_app. cbn [run step].
    destruct (loop (fst (run (repeat Button n) st))). reflexivity. }
  rewrite Hloop, run_presses, loop_encoderInc. unfold_setters.
  split; [reflexivity|]. split.
  - intros Hbig.
    assert (H1 : 1 <= Z.quot (encoderInc st) (10 ^ Z.of_nat n)).
    { rewrite Z.quot_div_nonneg by lia.
      apply Z.div_le_lower_bound; lia. }
    destruct (Z.ltb_spec (Z.quot (encoderInc st) (10 ^ Z.of_nat n)) minInc)
      as [Hlt | _]; [unfold minInc in Hlt; lia|].
    rewrite andb_false_r. reflexivity.
  - intros Hsmall Hsnap.
    rewrite Z.quot_small by exact Hsmall.
    destruct (lastEncoderInc st =? 0) eqn:E; zbool; [contradiction|].
    reflexivity.
Qed.

(** ** The display of the MSP430FR6989 build *)

Section Display.

Lemma to_int_id x : -32768 <= x < 32768 -> FR6989.to_int x = x.
Proof.
  unfold FR6989.to_int. change (2 ^ 15) with 32768.
  change (2 ^ 16) with 65536. intros H. rewrite Z.mod_small; lia.
Qed.

(** [printInc] prints no number, shows no character and writes no dot. *)
Lemma printInc_quiet st increment :
  FR6989.printed (FR6989.printInc st increment) = []
  /\ FR6989.unit_chars (FR6989.printInc st increment) = []
  /\ FR6989.base_events (FR6989.printInc st increment)
     = [SerialIncrement increment]
  /\ forall s cur, In s FR6989.dots ->
       FR6989.shown s cur (FR6989.printInc st increment) = cur.
Proof.
  unfold FR6989.printInc.
  repeat match goal with
    | |- context [if ?c then _ else _] => destruct c
    end;
    (split; [reflexivity|]); (split; [reflexivity|]);
    (split; [reflexivity|]);
    intros s cur Hs; cbn [FR6989.dots In] in Hs;
    destruct Hs as [<-|[<-|[<-|[<-|[<-|[]]]]]]; reflexivity.
Qed.

Lemma shown_app s out1 : forall cur out2,
  FR6989.shown s cur (out1 ++ out2) =
  FR6989.shown s (FR6989.shown s cur out1) out2.
Proof.
  induction out1 as [|o out1 IH]; intros cur out2; [reflexivity|].
  destruct o; cbn [app FR6989.shown]; try apply IH.
  destruct (Nat.eqb (FR6989.symbol_index symbol) (FR6989.symbol_index s));
    apply IH.
Qed.

(** [printFreq] is a branch-specific head followed by [printInc]. *)
Lemma printFreq_split st freq :
  exists n ds cs,
    FR6989.printFreq st freq =
      printFreq_head freq n ds cs ++ FR6989.printInc st (encoderInc st)
    /\ ( (9999999 < freq /\ n = Z.quot freq 1000
          /\ ds = FR6989.show_dots 0 1 0 0 0
          /\ cs = [FR6989.LcdShowChar "M" 5])
      \/ (999999 < freq <= 9999999
          /\ n = FR6989.to_int (Z.quot freq 1000)
          /\ ds = FR6989.show_dots 1 0 0 0 0
          /\ cs = [FR6989.LcdShowChar "M" 5])
      \/ (99999 < freq <= 999999
          /\ n = FR6989.to_int (Z.quot freq 100)
          /\ ds = FR6989.show_dots 0 0 1 0 0
          /\ cs = [FR6989.LcdShowChar "k" 5])
      \/ (9999 < freq <= 99999
          /\ n = FR6989.to_int (Z.quot freq 10)
          /\ ds = FR6989.show_dots 0 1 0 0 0
          /\ cs = [FR6989.LcdShowChar "k" 5])
      \/ (freq <= 9999 /\ n = FR6989.to_int freq
          /\ ds = FR6989.show_dots 0 0 0 0 0 /\ cs = []) ).
Proof.
  unfold FR6989.printFreq.
  destruct (freq >? 9999999) eqn:E1;
    [|destruct (freq >? 999999) eqn:E2;
      [|destruct (freq >? 99999) eqn:E3;
        [|destruct (freq >? 9999) eqn:E4]]];
    zbool.
  - exists (Z.quot freq 1000), (FR6989.show_dots 0 1 0 0 0),
      [FR6989.LcdShowChar "M" 5].
    split; [reflexivity|]. left. repeat split; lia.
  - exists (FR6989.to_int (Z.quot freq 1000)), (FR6989.show_dots 1 0 0 0 0),
      [FR6989.LcdShowChar "M" 5].
    split; [reflexivity|]. right; left. repeat split; lia.
  - exists (FR6989.to_int (Z.quot freq 100)), (FR6989.show_dots 0 0 1 0 0),
      [FR6989.LcdShowChar "k" 5].
    split; [reflexivity|]. do 2 right; left. repeat split; lia.
  - exists (FR6989.to_int (Z.quot freq 10)), (FR6989.show_dots 0 1 0 0 0),
      [FR6989.LcdShowChar "k" 5].
    split; [reflexivity|]. do 3 right; left. repeat split; lia.
  - exists (FR6989.to_int freq), (FR6989.show_dots 0 0 0 0 0), [].
    split; [reflexivity|]. do 4 right. repeat split; lia.
Qed.


Lemma printed_app out1 out2 :
  FR6989.printed (out1 ++ out2) = FR6989.printed out1 ++ FR6989.printed out2.
Proof.
  induction out1 as [|o out1 IH]; [reflexivity|].
  destruct o; cbn [app FR6989.printed]; rewrite IH; reflexivity.
Qed.

Lemma unit_chars_app out1 out2 :
  FR6989.unit_chars (out1 ++ out2) =
  FR6989.unit_chars out1 ++ FR6989.unit_chars out2.
Proof.
  induction out1 as [|o out1 IH]; [reflexivity|].
  destruct o; cbn [app FR6989.unit_chars]; rewrite IH; reflexivity.
Qed.

Lemma base_events_app out1 out2 :
  FR6989.base_events (out1 ++ out2) =
  FR6989.base_events out1 ++ FR6989.base_events out2.
Proof.
  induction out1 as [|o out1 IH]; [reflexivity|].
  destruct o; cbn [app FR6989.base_events]; rewrite IH; reflexivity.
Qed.

Lemma base_events_map t : FR6989.base_events (map FR6989.Base t) = t.
Proof.
  induction t as [|e t IH]; [reflexivity|].
  cbn [map FR6989.base_events]. rewrite IH. reflexivity.
Qed.

Lemma printed_map t : FR6989.printed (map FR6989.Base t) = [].
Proof. induction t as [|e t IH]; [reflexivity | exact IH]. Qed.

(** The dots lit after [head ++ tail] when [tail] writes no dot. *)
Lemma lit_dots_head head tail :
  (forall s cur, In s FR6989.dots -> FR6989.shown s cur tail = cur) ->
  FR6989.lit_dots (head ++ tail) = FR6989.lit_dots head.
Proof.
  intros Htail. unfold FR6989.lit_dots. f_equal.
  apply filter_ext_in. intros [k s] Hin. cbn [snd].
  rewrite shown_app, Htail; [reflexivity|].
  apply in_combine_r in Hin. exact Hin.
Qed.

(** The number [printFreq] prints for a legal frequency. *)
Lemma printFreq_printed st freq :
  minVal <= freq <= maxVal ->
  exists n, FR6989.printed (FR6989.printFreq st freq) = [n]
            /\ 0 <= n <= 32000.
Proof.
  unfold minVal, maxVal. intros Hlegal.
  destruct (printFreq_split st freq) as [n [ds [cs [-> Hcase]]]].
  destruct (printInc_quiet st (encoderInc st)) as [Hp _].
  exists n. rewrite printed_app, Hp, app_nil_r.
  destruct Hcase as [H|[H|[H|[H|H]]]];
    destruct H as [Hr [-> [-> ->]]];
    (split; [reflexivity|]);
    rewrite ?to_int_id; Z.to_euclidean_division_equations; lia.
Qed.

End Display.

(** X10: the battery symbol shows the decimal exponent of the step size.
    When the global increment is 10^k, k from 0 to 6, [printInc] leaves
    exactly the first k of the six bars lit (none for 1 Hz, all six for
    1 MHz), whatever its argument; for increment 0 it leaves none lit, as
    for 1 Hz; and [printFreq], which ends by calling [printInc], leaves the
    bars the same way. *)
Theorem lcd_bars_show_exponent (st : state) (increment freq : Z) :
  (forall k : nat, (k <= 6)%nat -> encoderInc st = 10 ^ Z.of_nat k ->
     FR6989.lit_bars (FR6989.printInc st increment) =
       map (fun j => Nat.ltb j k) (seq 0 6))
  /\ (encoderInc st = 0 ->
      FR6989.lit_bars (FR6989.printInc st increment) = repeat false 6)
  /\ FR6989.lit_bars (FR6989.printFreq st freq) =
       FR6989.lit_bars (FR6989.printInc st increment).
Proof.
  split; [|split].
  - intros k Hk Hinc. unfold FR6989.printInc. rewrite Hinc.
    destruct k as [|[|[|[|[|[|[|k]]]]]]]; try lia; reflexivity.
  - intros Hinc. unfold FR6989.printInc. rewrite Hinc. reflexivity.
  - destruct (printFreq_split st freq) as [n [ds [cs [-> Hcase]]]].
    unfold FR6989.lit_bars. apply map_ext_in. intros s Hs.
    rewrite shown_app.
    assert (Hhead : FR6989.shown s None (printFreq_head freq n ds cs) = None).
    { cbn [FR6989.bars In] in Hs.
      destruct Hcase as [H|[H|[H|[H|H]]]];
        destruct H as [_ [_ [-> ->]]];
        destruct Hs as [<-|[<-|[<-|[<-|[<-|[<-|[]]]]]]]; reflexivity. }
    rewrite Hhead. unfold FR6989.printInc. reflexivity.
Qed.

(** X11: for a frequency between [minVal] and [maxVal], [printFreq] hands
    exactly one number to the display, between 0 and 32000, so within the
    16-bit range the conversions to [int] and the library can take.  Below
    10 kHz the number is the frequency itself, no dot is lit and no unit is
    shown.  From 10 kHz on exactly one dot is lit and one unit character
    shown, M from 1 MHz on and k below; the number has at least four digits,
    and read with the decimal point after the digit the dot marks, in the
    unit shown, it is the frequency cut down to a multiple of 10, 100 or
    1000 Hz. *)
Theorem lcd_shows_frequency (st : state) (freq : Z)
  (Hlegal : minVal <= freq <= maxVal) :
  exists n,
    FR6989.printed (FR6989.printFreq st freq) = [n]
    /\ 0 <= n <= 32000
    /\ (freq < 10000 ->
        n = freq
        /\ FR6989.lit_dots (FR6989.printFreq st freq) = []
        /\ FR6989.unit_chars (FR6989.printFreq st freq) = [])
    /\ (10000 <= freq ->
        exists k c scale,
          FR6989.lit_dots (FR6989.printFreq st freq) = [k]
          /\ FR6989.unit_chars (FR6989.printFreq st freq) = [c]
          /\ (c = "M"%char /\ 1000000 <= freq
              \/ c = "k"%char /\ freq < 1000000)
          /\ 1000 <= n
          /\ In scale [10; 100; 1000]
          /\ scale * 10 ^ (FR6989.digits10 n - k) = FR6989.unit_hz c
          /\ n * scale <= freq < (n + 1) * scale).
Proof.
  unfold minVal, maxVal in Hlegal.
  destruct (printFreq_split st freq) as [n [ds [cs [Hsplit Hcase]]]].
  destruct (printInc_quiet st (encoderInc st)) as [Hp [Hu [_ Hd]]].
  exists n. rewrite Hsplit.
  rewrite printed_app, unit_chars_app, Hp, Hu, !app_nil_r.
  rewrite (lit_dots_head _ _ Hd).
  destruct Hcase as [H|[H|[H|[H|H]]]]; destruct H as [Hr [Hn [-> ->]]].
  - (* 10 MHz and above *)
    assert (Hb : 10000 <= n <= 32000)
      by (subst n; Z.to_euclidean_division_equations; lia).
    split; [reflexivity|]. split; [lia|]. split; [intros; lia|].
    intros _. exists 2, "M"%char, 1000.
    split; [reflexivity|]. split; [reflexivity|].
    split; [left; split; [reflexivity | lia]|].
    split; [lia|]. split; [cbn; tauto|].
    split.
    + unfold FR6989.digits10.
      repeat match goal with
        | |- context [?a <? ?b] => destruct (Z.ltb_spec a b); try lia
        end.
      reflexivity.
    + subst n. Z.to_euclidean_division_equations; lia.
  - (* 1 MHz to 10 MHz *)
    rewrite to_int_id in Hn by (Z.to_euclidean_division_equations; lia).
    assert (Hb : 1000 <= n <= 9999)
      by (subst n; Z.to_euclidean_division_equations; lia).
    split; [reflexivity|]. split; [lia|]. split; [intros; lia|].
    intros _. exists 1, "M"%char, 1000.
    split; [reflexivity|]. split; [reflexivity|].
    split; [left; split; [reflexivity | lia]|].
    split; [lia|]. split; [cbn; tauto|].
    split.
    + unfold FR6989.digits10.
      repeat match goal with
        | |- context [?a <? ?b] => destruct (Z.ltb_spec a b); try lia
        end.
      reflexivity.
    + subst n. Z.to_euclidean_division_equations; lia.
  - (* 100 kHz to 1 MHz *)
    rewrite to_int_id in Hn by (Z.to_euclidean_division_equations; lia).
    assert (Hb : 1000 <= n <= 9999)
      by (subst n; Z.to_euclidean_division_equations; lia).
    split; [reflexivity|]. split; [lia|]. split; [intros; lia|].
    intros _. exists 3, "k"%char, 100.
    split; [reflexivity|]. split; [reflexivity|].
    split; [right; split; [reflexivity | lia]|].
    split; [lia|]. split; [cbn; tauto|].
    split.
    + unfold FR6989.digits10.
      repeat match goal with
        | |- context [?a <? ?b] => destruct (Z.ltb_spec a b); try lia
        end.
      reflexivity.
    + subst n. Z.to_euclidean_division_equations; lia.
  - (* 10 kHz to 100 kHz *)
    rewrite to_int_id in Hn by (Z.to_euclidean_division_equations; lia).
    assert (Hb : 1000 <= n <= 9999)
      by (subst n; Z.to_euclidean_division_equations; lia).
    split; [reflexivity|]. split; [lia|]. split; [intros; lia|].
    intros _. exists 2, "k"%char, 10.
    split; [reflexivity|]. split; [reflexivity|].
    split; [right; split; [reflexivity | lia]|].
    split; [lia|]. split; [cbn; tauto|].
    split.
    + unfold FR6989.digits10.
      repeat match goal with
        | |- context [?a <? ?b] => destruct (Z.ltb_spec a b); try lia
        end.
      reflexivity.
    + subst n. Z.to_euclidean_division_equations; lia.
  - (* below 10 kHz *)
    rewrite to_int_id in Hn by lia.
    split; [reflexivity|]. split; [lia|].
    split; [intros _; repeat split; exact Hn | intros; lia].
Qed.

(** At 14.25 MHz the display shows 14250 with the second dot and M. *)
Lemma lcd_shows_frequency_witness :
  minVal <= 14250000 <= maxVal
  /\ FR6989.printed (FR6989.printFreq initial 14250000) = [14250]
  /\ exists n, FR6989.printed (FR6989.printFreq initial 14250000) = [n]
               /\ 0 <= n <= 32000.
Proof.
  assert (Hlegal : minVal <= 14250000 <= maxVal)
    by (vm_compute; split; discriminate).
  split; [exact Hlegal|]. split; [reflexivity|].
  destruct (lcd_shows_frequency initial 14250000 Hlegal) as [n [H1 [H2 _]]].
  exists n. split; [exact H1 | exact H2].
Defined.

(** X12: the display code does not disturb the control.  [setup] of the
    MSP430FR6989 build is that of the plain build with [lcd.init()] added;
    and for a pass of [loop] during which no interrupt is served: the pass
    leaves the globals exactly as the plain build does, puts the same
    writes on the AD9850 pins, and, whatever the globals were, every number
    it hands to the display lies between 0 and 32000, because the value is
    brought into range before it is shown. *)
Theorem lcd_loop_follows_plain_loop (st : state) :
  FR6989.base_events FR6989.setup = setup
  /\ fst (FR6989.loop st) = fst (loop st)
  /\ digital_writes (FR6989.base_events (snd (FR6989.loop st)))
     = digital_writes (snd (loop st))
  /\ Forall (fun n => 0 <= n <= 32000) (FR6989.printed (snd (FR6989.loop st))).
Proof.
  assert (Happ : forall t1 t2,
             digital_writes (t1 ++ t2) = digital_writes t1 ++ digital_writes t2)
    by (intros; apply filter_app).
  assert (Hinc : forall s i,
             digital_writes (FR6989.base_events (FR6989.printInc s i)) = []).
  { intros s i. destruct (printInc_quiet s i) as [_ [_ [-> _]]]. reflexivity. }
  assert (Hinc' : forall s i, FR6989.printed (FR6989.printInc s i) = []).
  { intros s i. apply printInc_quiet. }
  assert (Hfreq : forall s f,
             digital_writes (FR6989.base_events (FR6989.printFreq s f)) = []).
  { intros s f. destruct (printFreq_split s f) as [n [ds [cs [-> Hcase]]]].
    rewrite base_events_app, Happ, Hinc.
    destruct Hcase as [H|[H|[H|[H|H]]]]; destruct H as [_ [_ [-> ->]]];
      reflexivity. }
  assert (Hprinted : forall s f,
             0 <= f <= 32000000 ->
             Forall (fun n => 0 <= n <= 32000)
                    (FR6989.printed (FR6989.printFreq s f))).
  { intros s f Hf. destruct (printFreq_printed s f Hf) as [n [-> Hn]].
    constructor; [exact Hn | constructor]. }
  split; [reflexivity|].
  destruct st as [v i l1 l2 lv li].
  unfold FR6989.loop, loop, printFreq, printInc. unfold_setters.
  repeat (match goal with
          | |- context [if ?c then _ else _] =>
              let E := fresh "E" in destruct c eqn:E
          end; unfold_setters);
    cbv beta iota zeta; cbn [fst snd]; unfold_setters; zbool;
    unfold minVal, maxVal, minInc in *;
    try (exfalso; lia);
    (split; [reflexivity|]);
    rewrite ?app_nil_r; cbn [app];
    rewrite ?base_events_app, ?printed_app, ?base_events_map, ?printed_map,
      ?Happ, ?Hfreq, ?Hinc, ?Hinc';
    cbn [digital_writes filter FR6989.printed app];
    rewrite ?app_nil_r;
    (split; [reflexivity|]);
    try (apply Hprinted; lia); constructor.
Qed.
